(** * S3Database: a JSON document store over an S3-compatible bucket

    A shallow embedding of [S3Database.js].  Every method of the class is
    an action of a small state-and-exception monad over a [World] that
    holds the instance (`this`), the contents of the bucket, the record of
    the commands sent to the backend, the console and the clock.  The
    JavaScript runtime (JSON.parse, JSON.stringify, process.env) is a
    parameter of the development; a reference runtime is given to run
    the methods on sample buckets. *)

From stdpp Require Import gmap strings list fin_maps.
From Stdlib Require Import ZArith Ascii.

Open Scope string_scope.

#[local] Set Warnings "-register-all".

(** ** JavaScript values *)

(** The values JSON.parse can produce: numbers are integers here, IEEE
    doubles are outside this embedding.  An object is its list of own
    properties in insertion order. *)
Inductive json : Type :=
| JNull
| JBool (b : bool)
| JNum (n : Z)
| JStr (s : string)
| JArr (items : list json)
| JObj (props : list (string * json)).

(** A value that may be `undefined`. *)
Definition jsval : Type := option json.

Definition undefined : jsval := None.

(** An Error object, as far as the code looks at it: `err.name` and
    `err.message`. *)
Record JsError : Type := mkError { name : string; message : string }.

Definition NoSuchKey : JsError :=
  mkError "NoSuchKey" "The specified key does not exist.".

Definition TypeError (msg : string) : JsError := mkError "TypeError" msg.

Definition SyntaxError (msg : string) : JsError := mkError "SyntaxError" msg.

(** ToBoolean: `null`, `false`, `0`, the empty string and `undefined` are
    falsy, everything else (arrays and objects included) is truthy. *)
Definition truthy (v : json) : bool :=
  match v with
  | JNull => false
  | JBool b => b
  | JNum n => negb (n =? 0)%Z
  | JStr s => negb (String.eqb s "")
  | JArr _ => true
  | JObj _ => true
  end.

Definition truthy_val (v : jsval) : bool :=
  match v with
  | Some j => truthy j
  | None => false
  end.

(** `a || b` where `b` is known to be defined. *)
Definition js_or (a : jsval) (b : json) : json :=
  match a with
  | Some j => if truthy j then j else b
  | None => b
  end.

(** Own-property lookup in an object literal or a parsed object: the
    last binding of a repeated key is the one that counts. *)
Fixpoint lookup_prop (key : string) (props : list (string * json)) : jsval :=
  match props with
  | [] => None
  | (k, v) :: rest =>
      match lookup_prop key rest with
      | Some v' => Some v'
      | None => if String.eqb k key then Some v else None
      end
  end.

(** The outcome of evaluating an expression or of awaiting a promise: a
    value, a thrown error, or a promise that never settles. *)
Inductive Outcome (A : Type) : Type :=
| Return (a : A)
| Throw (err : JsError)
| Pending.

Arguments Return {A} a.
Arguments Throw {A} err.
Arguments Pending {A}.

(** `o.key` for the property names this file reads (none of which is
    inherited from a prototype): a TypeError on `null` and `undefined`,
    `undefined` on a primitive or an array, the own property on an
    object. *)
Definition get_prop (o : jsval) (key : string) : Outcome jsval :=
  match o with
  | None =>
      Throw (TypeError ("Cannot read properties of undefined (reading '" +:+ key +:+ "')"))
  | Some JNull =>
      Throw (TypeError ("Cannot read properties of null (reading '" +:+ key +:+ "')"))
  | Some (JObj props) => Return (lookup_prop key props)
  | Some _ => Return undefined
  end.

(** ** The runtime the module is loaded in *)

(** JSON.parse answers [None] where the engine throws a SyntaxError (whose
    message is the engine's own); process.env maps a variable to its
    value when it is set. *)
Record Runtime : Type := mkRuntime {
  JSON_parse : string -> option json;
  JSON_parse_message : string -> string;
  JSON_stringify : json -> string;
  process_env : string -> option string
}.

(** `process.env.X || dflt` *)
Definition env_or (rt : Runtime) (var dflt : string) : string :=
  match process_env rt var with
  | Some v => if String.eqb v "" then dflt else v
  | None => dflt
  end.

Definition s3endPoint (rt : Runtime) : string := env_or rt "AWS_S3_ENDPOINT" "http://127.0.0.1:9000".
Definition s3Region (rt : Runtime) : string := env_or rt "AWS_REGION" "us-east-1".
Definition s3AccessKeyDB (rt : Runtime) : string := env_or rt "AWS_ACCESS_KEY_ID" "minioadmin".
Definition s3SecretKeyDB (rt : Runtime) : string := env_or rt "AWS_SECRET_ACCESS_KEY" "minioadmin".
Definition s3BucketDB (rt : Runtime) : string := env_or rt "AWS_S3_BUCKET" "media".

(** ** The object store *)

(** The commands the class sends; all of them address `this.bucket`, so
    the bucket is left out.  A continuation token is the number of keys
    already listed. *)
Inductive Command : Type :=
| GetObjectCommand (Key : string)
| PutObjectCommand (Key : string) (Body : string)
| DeleteObjectCommand (Key : string)
| ListObjectsV2Command (Prefix : string) (MaxKeys : nat) (ContinuationToken : option nat).

Record S3Object : Type := mkObject { Key : string }.

Record Page : Type := mkPage {
  Contents : option (list S3Object);
  NextContinuationToken : option nat
}.

Record GetObjectOutput : Type := mkGetObjectOutput { Body : string }.

(** What console.error and console.log are given. *)
Inductive LogArg : Type :=
| LStr (s : string)
| LErr (e : JsError)
| LVal (v : json).

Inductive LogLine : Type :=
| console_error_line (args : list LogArg)
| console_log_line (args : list LogArg).

(** What `new S3Client(..)` is given. *)
Record S3ClientConfig : Type := mkClientConfig {
  region : string;
  endpoint : string;
  given_credentials : jsval;
  forcePathStyle : bool
}.

(** `this`: the bucket name, what `this.s3Client.config.credentials`
    evaluates to, and the set of initialised tables. *)
Record S3Database : Type := mkDatabase {
  bucket : string;
  credentials : jsval;
  tables : gset string
}.

(** `new S3Database(endpoint, bucket, region, accessKey, secretKey)`, an
    argument left out being [None].  The client is the SDK's: [expose]
    is what its `config.credentials` evaluates to for the configuration
    it was made with. *)
Definition new_S3Database (rt : Runtime) (expose : S3ClientConfig -> jsval)
    (endpoint' bucket' region' accessKey secretKey : option string) : S3Database :=
  let given :=
    match accessKey, secretKey with
    | Some a, Some s =>
        if negb (String.eqb a "") && negb (String.eqb s "")
        then Some (JObj [("accessKeyId", JStr a); ("secretAccessKey", JStr s)])
        else undefined
    | _, _ => undefined
    end in
  mkDatabase
    (default (s3BucketDB rt) bucket')
    (expose (mkClientConfig (default (s3Region rt) region')
                            (default (s3endPoint rt) endpoint') given true))
    ∅.

(** The instance together with its surroundings.  [objects] is the
    content of the bucket (key to body).  [faults n c] is the error, if
    any, with which the backend answers command [c] when it is the
    [n]-th command sent: [None] lets the command through.  [sent] is the
    record of all commands sent, [console] the lines logged, [now] what
    `new Date().toISOString()` reads. *)
Record World : Type := mkWorld {
  this : S3Database;
  objects : gmap string string;
  faults : nat -> Command -> option JsError;
  sent : list Command;
  console : list LogLine;
  now : string
}.

Definition set_objects (o : gmap string string) (w : World) : World :=
  mkWorld (this w) o (faults w) (sent w) (console w) (now w).

Definition set_sent (s : list Command) (w : World) : World :=
  mkWorld (this w) (objects w) (faults w) s (console w) (now w).

Definition set_console (c : list LogLine) (w : World) : World :=
  mkWorld (this w) (objects w) (faults w) (sent w) c (now w).

Definition set_tables (t : gset string) (w : World) : World :=
  mkWorld (mkDatabase (bucket (this w)) (credentials (this w)) t)
          (objects w) (faults w) (sent w) (console w) (now w).

(** ** The monad of async methods *)

Definition M (A : Type) : Type := World -> Outcome A * World.

Definition ret {A} (a : A) : M A := fun w => (Return a, w).

Definition throw {A} (e : JsError) : M A := fun w => (Throw e, w).

Definition pending {A} : M A := fun w => (Pending, w).

Definition bind {A B} (m : M A) (k : A -> M B) : M B :=
  fun w =>
    match m w with
    | (Return a, w') => k a w'
    | (Throw e, w') => (Throw e, w')
    | (Pending, w') => (Pending, w')
    end.

(** `try { body } catch (err) { handler }` *)
Definition try_catch {A} (body : M A) (handler : JsError -> M A) : M A :=
  fun w =>
    match body w with
    | (Return a, w') => (Return a, w')
    | (Throw e, w') => handler e w'
    | (Pending, w') => (Pending, w')
    end.

(** Lifts the outcome of a pure expression. *)
Definition eval {A} (o : Outcome A) : M A := fun w => (o, w).

Declare Scope js_scope.
Delimit Scope js_scope with js.
Notation "x <- m ;; k" := (bind m (fun x => k))
  (at level 100, m at next level, right associativity) : js_scope.
Notation "m ;;; k" := (bind m (fun _ => k))
  (at level 100, right associativity) : js_scope.
Open Scope js_scope.

Definition console_error (args : list LogArg) : M unit :=
  fun w => (Return tt, set_console (console w ++ [console_error_line args]) w).

Definition console_log (args : list LogArg) : M unit :=
  fun w => (Return tt, set_console (console w ++ [console_log_line args]) w).

(** `new Date().toISOString()` *)
Definition Date_toISOString : M string := fun w => (Return (now w), w).

(** ** The backend *)

(** The keys under a prefix, in the order the backend enumerates them. *)
Definition list_keys (objs : gmap string string) (prefix : string) : list string :=
  filter (fun k => String.prefix prefix k = true) (map_to_list objs).*1.

(** The page of at most [MaxKeys] keys that starts after [skip] keys;
    a page without keys carries no `Contents`. *)
Definition list_page (objs : gmap string string) (prefix : string)
    (MaxKeys : nat) (skip : nat) : Page :=
  let rest := drop skip (list_keys objs prefix) in
  let here := take MaxKeys rest in
  mkPage (match here with [] => None | _ => Some (map mkObject here) end)
         (match drop MaxKeys rest with [] => None | _ => Some (skip + MaxKeys) end).

(** `await this.s3Client.send(command)`: the command is recorded, then
    either the backend fails it or the bucket runs it. *)
Definition send {A} (c : Command)
    (run : gmap string string -> Outcome A * gmap string string) : M A :=
  fun w =>
    let w1 := set_sent (sent w ++ [c]) w in
    match faults w (length (sent w)) c with
    | Some e => (Throw e, w1)
    | None =>
        let '(o, objs) := run (objects w) in
        (o, set_objects objs w1)
    end.

Definition send_GetObject (k : string) : M GetObjectOutput :=
  send (GetObjectCommand k)
    (fun objs =>
       match objs !! k with
       | Some body => (Return (mkGetObjectOutput body), objs)
       | None => (Throw NoSuchKey, objs)
       end).

Definition send_PutObject (k body : string) : M unit :=
  send (PutObjectCommand k body) (fun objs => (Return tt, <[k := body]> objs)).

Definition send_DeleteObject (k : string) : M unit :=
  send (DeleteObjectCommand k) (fun objs => (Return tt, delete k objs)).

Definition send_ListObjectsV2 (prefix : string) (MaxKeys : nat) (token : option nat) : M Page :=
  send (ListObjectsV2Command prefix MaxKeys token)
    (fun objs => (Return (list_page objs prefix MaxKeys (default 0 token)), objs)).

(** `for (const x of l) body`, the loop's local state passed along. *)
Fixpoint for_of {A B} (l : list A) (body : B -> A -> M B) (acc : B) : M B :=
  match l with
  | [] => ret acc
  | x :: l' => acc' <- body acc x;; for_of l' body acc'
  end.

(** `for await (const page of paginateListObjectsV2(..)) body`: a page
    is requested, the body runs on it, and the next page is requested
    with the token of this one until a page comes without a token.
    [fuel] bounds the number of requests; when it runs out the loop is
    still waiting. *)
Fixpoint for_await_pages {B} (fuel : nat) (prefix : string) (MaxKeys : nat)
    (token : option nat) (body : B -> Page -> M B) (acc : B) : M B :=
  match fuel with
  | O => pending
  | S fuel' =>
      page <- send_ListObjectsV2 prefix MaxKeys token;;
      acc' <- body acc page;;
      match NextContinuationToken page with
      | Some t => for_await_pages fuel' prefix MaxKeys (Some t) body acc'
      | None => ret acc'
      end
  end.

(** Requests enough for every page of a listing that does not grow
    while it is read. *)
Definition pages_fuel (w : World) (prefix : string) : nat :=
  S (length (list_keys (objects w) prefix)).

(** ** The class S3Database *)

Section S3Database.

Variable rt : Runtime.

(** `JSON.parse(text)` as a statement: the value, or a SyntaxError. *)
Definition parse (text : string) : M json :=
  match JSON_parse rt text with
  | Some v => ret v
  | None => throw (SyntaxError (JSON_parse_message rt text))
  end.

(** The body of a response is held whole, so reading the stream to its
    end gives it back; a stream that breaks is a failed command. *)
Definition streamToString (stream : string) : M string := ret stream.

Definition metadata_key (tableName : string) : string := tableName +:+ "/_metadata.json".

Definition tables_has (tableName : string) : M bool :=
  fun w => (Return (bool_decide (tableName ∈ tables (this w))), w).

Definition tables_add (tableName : string) : M unit :=
  fun w => (Return tt, set_tables ({[tableName]} ∪ tables (this w)) w).

Definition ensureTable (tableName : string) : M unit :=
  known <- tables_has tableName;;
  if known then ret tt else
  try_catch
    (try_catch
       (_ <- send_GetObject (metadata_key tableName);; ret tt)
       (fun err =>
          created <- Date_toISOString;;
          send_PutObject (metadata_key tableName)
            (JSON_stringify rt
               (JObj [("tableName", JStr tableName); ("created", JStr created)])));;;
     tables_add tableName)
    (fun err =>
       console_error [LStr ("Error ensuring table " +:+ tableName +:+ ":"); LErr err];;;
       throw err).

(** The entry getS3DataWithKey pushes: `{ key: obj.Key, data }`. *)
Definition keyed_row (k : string) (data : json) : json :=
  JObj [("key", JStr k); ("data", data)].

Definition getS3DataWithKey (prefix : string) : M (list json) :=
  fun w =>
    for_await_pages (pages_fuel w prefix) prefix 1000 None
      (fun rows page =>
         match Contents page with
         | Some contents =>
             for_of contents
               (fun rows obj =>
                  try_catch
                    (itemResponse <- send_GetObject (Key obj);;
                     dataStr <- streamToString (Body itemResponse);;
                     data <- parse dataStr;;
                     ret (rows ++ [keyed_row (Key obj) data])%list)
                    (fun err =>
                       console_error [LStr ("Error reading " +:+ Key obj +:+ ":"); LErr err];;;
                       ret rows))
               rows
         | None => ret rows
         end)
      [] w.

(** `profileId` is a string, or [None] for `undefined` and `null`. *)
Definition absent (profileId : option string) : bool :=
  match profileId with
  | Some s => String.eqb s ""
  | None => true
  end.

(** `${profileId}` *)
Definition profile_text (profileId : option string) : string := default "undefined" profileId.

Definition pool_key (profileId : option string) : string :=
  "pools/" +:+ profile_text profileId +:+ ".json".

(** `!poolData.field` *)
Definition missing (poolData : json) (field : string) : M bool :=
  v <- eval (get_prop (Some poolData) field);;
  ret (negb (truthy_val v)).

(** `a || b` on conditions: [b] is evaluated only when [a] is false. *)
Definition or_else (a b : M bool) : M bool :=
  x <- a;; if x then ret true else b.

Definition credentials_object (bucketName accessKey secretKey : json) : json :=
  JObj [("bucketName", bucketName); ("accessKey", accessKey); ("secretKey", secretKey)].

Definition getPoolCredentials (profileId : option string) : M json :=
  if absent profileId || bool_decide (profileId = Some "default") then
    fun w =>
      (accessKeyId <- eval (get_prop (credentials (this w)) "accessKeyId");;
       secretAccessKey <- eval (get_prop (credentials (this w)) "secretAccessKey");;
       ret (credentials_object
              (JStr (bucket (this w)))
              (js_or accessKeyId (JStr (s3AccessKeyDB rt)))
              (js_or secretAccessKey (JStr (s3SecretKeyDB rt))))) w
  else
    try_catch
      (console_log [LStr "getPoolCredentials: Looking up pool:"; LStr (profile_text profileId)];;;
       try_catch
         (response <- send_GetObject (pool_key profileId);;
          dataStr <- streamToString (Body response);;
          poolData <- parse dataStr;;
          invalid <- or_else (ret (negb (truthy poolData)))
                       (or_else (missing poolData "bucketName")
                          (or_else (missing poolData "accessKey")
                             (missing poolData "secretKey")));;
          if invalid then
            (if truthy poolData then
               console_error
                 [LStr ("getPoolCredentials: Pool " +:+ profile_text profileId +:+ " has missing credentials:");
                  LVal poolData]
             else
               noBucketName <- missing poolData "bucketName";;
               (if noBucketName then
                  console_error [LStr ("getPoolCredentials: Pool " +:+ profile_text profileId +:+ " missing bucketName")]
                else ret tt);;;
               noAccessKey <- missing poolData "accessKey";;
               (if noAccessKey then
                  console_error [LStr ("getPoolCredentials: Pool " +:+ profile_text profileId +:+ " missing accessKey")]
                else ret tt);;;
               noSecretKey <- missing poolData "secretKey";;
               (if noSecretKey then
                  console_error [LStr ("getPoolCredentials: Pool " +:+ profile_text profileId +:+ " missing secretKey")]
                else ret tt));;;
            ret JNull
          else
            bucketName <- eval (get_prop (Some poolData) "bucketName");;
            accessKey <- eval (get_prop (Some poolData) "accessKey");;
            secretKey <- eval (get_prop (Some poolData) "secretKey");;
            ret (credentials_object
                   (js_or bucketName (JStr (s3BucketDB rt)))
                   (js_or accessKey (JStr (s3AccessKeyDB rt)))
                   (js_or secretKey (JStr (s3SecretKeyDB rt)))))
         (fun err =>
            if String.eqb (name err) "NoSuchKey" then
              console_error
                [LStr ("getPoolCredentials: Error with Pool " +:+ profile_text profileId +:+ " not found with error:");
                 LStr (name err); LStr (message err)];;;
              ret JNull
            else throw err))
      (fun err =>
         console_error
           [LStr ("getPoolCredentials: Error getting pool credentials for " +:+ profile_text profileId +:+ ":");
            LErr err];;;
         ret JNull).

Definition getS3Data (prefix : string) : M (list json) :=
  fun w =>
    for_await_pages (pages_fuel w prefix) prefix 1000 None
      (fun rows page =>
         match Contents page with
         | Some contents =>
             for_of contents
               (fun rows obj =>
                  try_catch
                    (itemResponse <- send_GetObject (Key obj);;
                     dataStr <- streamToString (Body itemResponse);;
                     data <- parse dataStr;;
                     ret (rows ++ [data])%list)
                    (fun err =>
                       console_error [LStr ("Error reading " +:+ Key obj +:+ ":"); LErr err];;;
                       ret rows))
               rows
         | None => ret rows
         end)
      [] w.

Definition get (key : string) : M json :=
  try_catch
    (try_catch
       (response <- send_GetObject key;;
        dataStr <- streamToString (Body response);;
        data <- parse dataStr;;
        ret data)
       (fun err =>
          if String.eqb (name err) "NoSuchKey" then
            console_error
              [LStr ("Error with key " +:+ key +:+ " not found with error:");
               LStr (name err); LStr (message err)];;;
            ret JNull
          else throw err))
    (fun err =>
       console_error [LStr ("Error getting key  " +:+ key +:+ ":"); LErr err];;;
       ret JNull).

Definition put (key : string) (data : json) : M unit :=
  try_catch
    (send_PutObject key (JSON_stringify rt data))
    (fun err =>
       console_error [LStr ("Error putting data into S3 for key " +:+ key +:+ ":"); LErr err];;;
       throw err).

Definition delete_ (key : string) : M unit :=
  try_catch
    (send_DeleteObject key)
    (fun err =>
       console_error [LStr ("Error deleting data from S3 for key " +:+ key +:+ ":"); LErr err];;;
       throw err).

End S3Database.

(** ** A reference runtime *)

(** A JSON printer and reader for the values of [json], and an empty
    process environment: enough to run the methods on sample buckets.
    Strings are byte strings; the reader decodes the two-character
    escapes and `\u00XX`, and accepts integers only. *)
Module Reference.

#[local] Open Scope list_scope.

Definition dquote : ascii := ascii_of_N 34.

Definition digit_of (c : ascii) : option Z :=
  let n := Z.of_N (N_of_ascii c) in
  if (48 <=? n)%Z && (n <=? 57)%Z then Some (n - 48)%Z else None.

Definition hex_of (c : ascii) : option Z :=
  let n := Z.of_N (N_of_ascii c) in
  if (48 <=? n)%Z && (n <=? 57)%Z then Some (n - 48)%Z
  else if (97 <=? n)%Z && (n <=? 102)%Z then Some (n - 87)%Z
  else if (65 <=? n)%Z && (n <=? 70)%Z then Some (n - 55)%Z
  else None.

Definition hex_digit (n : Z) : ascii :=
  ascii_of_N (Z.to_N (if (n <? 10)%Z then n + 48 else n + 87)%Z).

Definition is_ws (c : ascii) : bool :=
  let n := N_of_ascii c in
  (n =? 32)%N || (n =? 9)%N || (n =? 10)%N || (n =? 13)%N.

Definition is_control (c : ascii) : bool := (N_of_ascii c <? 32)%N.

Fixpoint skip_ws (s : list ascii) : list ascii :=
  match s with
  | c :: rest => if is_ws c then skip_ws rest else s
  | [] => []
  end.

(** *** Printing *)

Fixpoint digits_of_pos (fuel : nat) (n : Z) (acc : list ascii) : list ascii :=
  match fuel with
  | O => acc
  | S fuel' =>
      let acc' := ascii_of_N (Z.to_N (48 + n mod 10)%Z) :: acc in
      if (n <? 10)%Z then acc' else digits_of_pos fuel' (n / 10)%Z acc'
  end.

Definition print_number (n : Z) : list ascii :=
  let magnitude := Z.abs n in
  let digits := digits_of_pos (S (Z.to_nat (Z.log2 magnitude))) magnitude [] in
  if (n <? 0)%Z then "-"%char :: digits else digits.

Definition escape_char (c : ascii) : list ascii :=
  let n := N_of_ascii c in
  if (n =? 34)%N then ["\"%char; dquote]
  else if (n =? 92)%N then ["\"%char; "\"%char]
  else if (n =? 8)%N then ["\"%char; "b"%char]
  else if (n =? 12)%N then ["\"%char; "f"%char]
  else if (n =? 10)%N then ["\"%char; "n"%char]
  else if (n =? 13)%N then ["\"%char; "r"%char]
  else if (n =? 9)%N then ["\"%char; "t"%char]
  else if is_control c then
    ["\"%char; "u"%char; "0"%char; "0"%char;
     hex_digit (Z.of_N n / 16)%Z; hex_digit (Z.of_N n mod 16)%Z]
  else [c].

Definition print_string (s : string) : list ascii :=
  dquote :: flat_map escape_char (String.list_ascii_of_string s) ++ [dquote].

Fixpoint print_value (v : json) : list ascii :=
  match v with
  | JNull => String.list_ascii_of_string "null"
  | JBool true => String.list_ascii_of_string "true"
  | JBool false => String.list_ascii_of_string "false"
  | JNum n => print_number n
  | JStr s => print_string s
  | JArr items =>
      let fix print_items (l : list json) : list ascii :=
        match l with
        | [] => []
        | [x] => print_value x
        | x :: rest => print_value x ++ ","%char :: print_items rest
        end in
      "["%char :: print_items items ++ ["]"%char]
  | JObj props =>
      let fix print_props (l : list (string * json)) : list ascii :=
        match l with
        | [] => []
        | [(k, x)] => print_string k ++ ":"%char :: print_value x
        | (k, x) :: rest =>
            print_string k ++ ":"%char :: print_value x ++ ","%char :: print_props rest
        end in
      "{"%char :: print_props props ++ ["}"%char]
  end.

Definition stringify (v : json) : string := String.string_of_list_ascii (print_value v).

(** *** Reading *)

(** The characters of a string literal after its opening quote, up to
    and without the closing one. *)
Fixpoint read_string (s : list ascii) (acc : list ascii) : option (string * list ascii) :=
  match s with
  | [] => None
  | c :: rest =>
      if Ascii.eqb c dquote then Some (String.string_of_list_ascii (rev acc), rest)
      else if Ascii.eqb c "\"%char then
        match rest with
        | e :: rest' =>
            let plain (x : ascii) := read_string rest' (x :: acc) in
            if Ascii.eqb e dquote then plain dquote
            else if Ascii.eqb e "\"%char then plain "\"%char
            else if Ascii.eqb e "/"%char then plain "/"%char
            else if Ascii.eqb e "b"%char then plain (ascii_of_N 8)
            else if Ascii.eqb e "f"%char then plain (ascii_of_N 12)
            else if Ascii.eqb e "n"%char then plain (ascii_of_N 10)
            else if Ascii.eqb e "r"%char then plain (ascii_of_N 13)
            else if Ascii.eqb e "t"%char then plain (ascii_of_N 9)
            else if Ascii.eqb e "u"%char then
              match rest' with
              | "0"%char :: "0"%char :: h :: l :: rest'' =>
                  match hex_of h, hex_of l with
                  | Some a, Some b =>
                      if (a <? 8)%Z
                      then read_string rest'' (ascii_of_N (Z.to_N (16 * a + b)) :: acc)
                      else None
                  | _, _ => None
                  end
              | _ => None
              end
            else None
        | [] => None
        end
      else if is_control c then None
      else read_string rest (c :: acc)
  end.

Fixpoint read_digits (s : list ascii) (acc : Z) : Z * list ascii :=
  match s with
  | c :: rest =>
      match digit_of c with
      | Some d => read_digits rest (10 * acc + d)%Z
      | None => (acc, s)
      end
  | [] => (acc, [])
  end.

(** An integer without a leading zero; a fraction or an exponent after
    it is refused. *)
Definition read_natural (s : list ascii) : option (Z * list ascii) :=
  match s with
  | c :: rest =>
      match digit_of c with
      | Some d =>
          let '(n, rest') := if (d =? 0)%Z then (0%Z, rest) else read_digits rest d in
          match rest' with
          | x :: _ =>
              if bool_decide (is_Some (digit_of x)) || Ascii.eqb x "."%char
                 || Ascii.eqb x "e"%char || Ascii.eqb x "E"%char
              then None else Some (n, rest')
          | [] => Some (n, rest')
          end
      | None => None
      end
  | [] => None
  end.

Fixpoint strip (word : list ascii) (s : list ascii) : option (list ascii) :=
  match word, s with
  | [], _ => Some s
  | a :: word', b :: s' => if Ascii.eqb a b then strip word' s' else None
  | _ :: _, [] => None
  end.

(** Sets a property the way an object under construction does: a
    repeated key keeps its place and takes the new value. *)
Fixpoint set_prop (k : string) (v : json) (props : list (string * json)) : list (string * json) :=
  match props with
  | [] => [(k, v)]
  | (k', v') :: rest =>
      if String.eqb k' k then (k', v) :: rest else (k', v') :: set_prop k v rest
  end.

Fixpoint read_value (fuel : nat) (s : list ascii) : option (json * list ascii) :=
  match fuel with
  | O => None
  | S fuel' =>
      match skip_ws s with
      | [] => None
      | c :: rest =>
          if Ascii.eqb c "n"%char then
            r ← strip (String.list_ascii_of_string "ull") rest; Some (JNull, r)
          else if Ascii.eqb c "t"%char then
            r ← strip (String.list_ascii_of_string "rue") rest; Some (JBool true, r)
          else if Ascii.eqb c "f"%char then
            r ← strip (String.list_ascii_of_string "alse") rest; Some (JBool false, r)
          else if Ascii.eqb c dquote then
            '(str, r) ← read_string rest []; Some (JStr str, r)
          else if Ascii.eqb c "-"%char then
            '(n, r) ← read_natural rest; Some (JNum (- n), r)
          else if Ascii.eqb c "["%char then
            match skip_ws rest with
            | x :: r => if Ascii.eqb x "]"%char then Some (JArr [], r)
                        else read_items fuel' rest []
            | [] => None
            end
          else if Ascii.eqb c "{"%char then
            match skip_ws rest with
            | x :: r => if Ascii.eqb x "}"%char then Some (JObj [], r)
                        else read_props fuel' rest []
            | [] => None
            end
          else
            '(n, r) ← read_natural (c :: rest); Some (JNum n, r)
      end
  end
with read_items (fuel : nat) (s : list ascii) (acc : list json) : option (json * list ascii) :=
  match fuel with
  | O => None
  | S fuel' =>
      '(v, r) ← read_value fuel' s;
      match skip_ws r with
      | x :: r' =>
          if Ascii.eqb x ","%char then read_items fuel' r' (acc ++ [v])%list
          else if Ascii.eqb x "]"%char then Some (JArr (acc ++ [v])%list, r')
          else None
      | [] => None
      end
  end
with read_props (fuel : nat) (s : list ascii) (acc : list (string * json)) : option (json * list ascii) :=
  match fuel with
  | O => None
  | S fuel' =>
      match skip_ws s with
      | q :: r0 =>
          if Ascii.eqb q dquote then
            '(k, r1) ← read_string r0 [];
            match skip_ws r1 with
            | colon :: r2 =>
                if Ascii.eqb colon ":"%char then
                  '(v, r3) ← read_value fuel' r2;
                  match skip_ws r3 with
                  | x :: r4 =>
                      if Ascii.eqb x ","%char then read_props fuel' r4 (set_prop k v acc)
                      else if Ascii.eqb x "}"%char then Some (JObj (set_prop k v acc), r4)
                      else None
                  | [] => None
                  end
                else None
            | [] => None
            end
          else None
      | [] => None
      end
  end.

(** A text is read when one value, and nothing but white space after it,
    is found. *)
Definition read (text : string) : option json :=
  let s := String.list_ascii_of_string text in
  '(v, r) ← read_value (S (length s)) s;
  match skip_ws r with
  | [] => Some v
  | _ :: _ => None
  end.

Definition runtime : Runtime :=
  mkRuntime read (fun text => "Unexpected token in JSON: " +:+ text) stringify (fun _ => None).

End Reference.

(** ** Sample buckets *)

Module Samples.

Definition order (id : Z) : json := JObj [("id", JNum id); ("status", JStr "paid")].

Definition acme_pool : json :=
  JObj [("bucketName", JStr "acme-media"); ("accessKey", JStr "AKIAACME"); ("secretKey", JStr "s3cr3t")].

(** A pool record whose access key is present and empty. *)
Definition blank_pool : json :=
  JObj [("bucketName", JStr "blank-media"); ("accessKey", JStr ""); ("secretKey", JStr "s3cr3t")].

(** The sentinel of a table initialised long ago. *)
Definition invoices_sentinel : json :=
  JObj [("tableName", JStr "invoices"); ("created", JStr "2020-01-01T00:00:00.000Z")].

(** Two orders, a third whose body is cut short, two pool records and
    the sentinel of the table `invoices`. *)
Definition bucket_contents : gmap string string :=
  <["orders/1.json" := Reference.stringify (order 1)]>
  (<["orders/2.json" := Reference.stringify (order 2)]>
  (<["orders/3.json" := "{oops"]>
  (<["pools/acme.json" := Reference.stringify acme_pool]>
  (<["pools/blank.json" := Reference.stringify blank_pool]>
  (<["invoices/_metadata.json" := Reference.stringify invoices_sentinel]> ∅))))).

Definition AccessDenied : JsError := mkError "AccessDenied" "Access Denied".

(** A backend that answers every command. *)
Definition healthy : nat -> Command -> option JsError := fun _ _ => None.

(** A backend that refuses every GetObject and lets the rest through. *)
Definition unreadable : nat -> Command -> option JsError :=
  fun _ c => match c with GetObjectCommand _ => Some AccessDenied | _ => None end.

(** A client whose `config.credentials` is a provider: a value without
    properties of its own. *)
Definition provider (config : S3ClientConfig) : jsval := Some (JObj []).



(** `new S3Database()` on the bucket `media`. *)
Definition fresh (objs : gmap string string) (f : nat -> Command -> option JsError) : World :=
  mkWorld (new_S3Database Reference.runtime provider None None None None None)
          objs f [] [] "2024-05-01T12:00:00.000Z".

Definition world : World := fresh bucket_contents healthy.

Definition denied_world : World := fresh bucket_contents unreadable.



(** A backend that refuses every write and every delete. *)
Definition read_only : nat -> Command -> option JsError :=
  fun _ c =>
    match c with
    | PutObjectCommand _ _ | DeleteObjectCommand _ => Some AccessDenied
    | _ => None
    end.

(** A backend that refuses every listing. *)
Definition listing_down : nat -> Command -> option JsError :=
  fun _ c => match c with ListObjectsV2Command _ _ _ => Some AccessDenied | _ => None end.


Definition frozen_world : World := fresh bucket_contents read_only.

Definition unlisted_world : World := fresh bucket_contents listing_down.

(** The entries of the two orders that parse, as the sample bucket
    lists them. *)
Definition keyed_orders : list json :=
  [JObj [("key", JStr "orders/1.json"); ("data", order 1)];
   JObj [("key", JStr "orders/2.json"); ("data", order 2)]].

End Samples.

(** ** Reading the code's steps as functions of the world *)

(** What a GetObject for [k] sent in [w] comes back with. *)
Definition fetch (w : World) (k : string) : JsError + string :=
  match faults w (length (sent w)) (GetObjectCommand k) with
  | Some e => inl e
  | None =>
      match objects w !! k with
      | Some body => inr body
      | None => inl NoSuchKey
      end
  end.

(** The backend answers every listing from now on (a GetObject may
    still fail). *)
Definition listing_answered (w : World) : Prop :=
  forall n prefix maxKeys token, faults w n (ListObjectsV2Command prefix maxKeys token) = None.

(** The backend answers every command from now on. *)
Definition fault_free (w : World) : Prop := forall n c, faults w n c = None.

Definition is_error_line (l : LogLine) : bool :=
  match l with
  | console_error_line _ => true
  | console_log_line _ => false
  end.

(** The lines logged between [w] and [w']. *)
Definition logged (w w' : World) : list LogLine := drop (length (console w)) (console w').



(** The client's configuration carries a credentials value, so that
    reading a property of it does not raise. *)
Definition exposes_credentials (w : World) : Prop :=
  match credentials (this w) with
  | None | Some JNull => False
  | Some _ => True
  end.

(** The value of [field] in a record, when it is there and truthy. *)
Definition truthy_field (poolData : json) (field : string) : option json :=
  match poolData with
  | JObj props =>
      match lookup_prop field props with
      | Some v => if truthy v then Some v else None
      | None => None
      end
  | _ => None
  end.

(** The three fields of a pool record, when all are there and truthy. *)
Definition complete_record (poolData : json) : option (json * json * json) :=
  match truthy_field poolData "bucketName",
        truthy_field poolData "accessKey",
        truthy_field poolData "secretKey" with
  | Some b, Some a, Some s => Some (b, a, s)
  | _, _, _ => None
  end.

(** A profile that names a pool: neither absent nor `default`. *)
Definition names_pool (profileId : option string) : Prop :=
  absent profileId = false /\ profileId <> Some "default".



(** *** Prefix scans *)

(** The loop body the two scans share, up to the entry pushed: [mk]
    builds it from the key and the parsed document. *)
Definition read_item (rt : Runtime) (mk : string -> json -> json)
    (rows : list json) (obj : S3Object) : M (list json) :=
  try_catch
    (itemResponse <- send_GetObject (Key obj);;
     dataStr <- streamToString (Body itemResponse);;
     data <- parse rt dataStr;;
     ret (rows ++ [mk (Key obj) data])%list)
    (fun err =>
       console_error [LStr ("Error reading " +:+ Key obj +:+ ":"); LErr err];;;
       ret rows).

Definition scan_page (rt : Runtime) (mk : string -> json -> json)
    (rows : list json) (page : Page) : M (list json) :=
  match Contents page with
  | Some contents => for_of contents (read_item rt mk) rows
  | None => ret rows
  end.

Definition bare_row (k : string) (data : json) : json := data.

(** `row.data` *)
Definition data_of (row : json) : json :=
  match row with
  | JObj props => default JNull (lookup_prop "data" props)
  | _ => JNull
  end.

(** What fetching and parsing the object at [k] comes to in [w]. *)
Definition item_outcome (rt : Runtime) (w : World) (k : string) : JsError + json :=
  match fetch w k with
  | inl e => inl e
  | inr body =>
      match JSON_parse rt body with
      | Some d => inr d
      | None => inl (SyntaxError (JSON_parse_message rt body))
      end
  end.

Definition reading_error (k : string) (e : JsError) : LogLine :=
  console_error_line [LStr ("Error reading " +:+ k +:+ ":"); LErr e].

(** The world after the loop body has run on the object at [k]. *)
Definition after_item (rt : Runtime) (w : World) (k : string) : World :=
  let w1 := set_sent (sent w ++ [GetObjectCommand k]) w in
  match item_outcome rt w k with
  | inr _ => w1
  | inl e => set_console (console w1 ++ [reading_error k e]) w1
  end.

Definition rows_after_item (rt : Runtime) (mk : string -> json -> json)
    (w : World) (rows : list json) (k : string) : list json :=
  match item_outcome rt w k with
  | inr d => (rows ++ [mk k d])%list
  | inl _ => rows
  end.

Fixpoint after_items (rt : Runtime) (w : World) (keys : list string) : World :=
  match keys with
  | [] => w
  | k :: keys' => after_items rt (after_item rt w k) keys'
  end.

Fixpoint rows_after_items (rt : Runtime) (mk : string -> json -> json)
    (w : World) (rows : list json) (keys : list string) : list json :=
  match keys with
  | [] => rows
  | k :: keys' =>
      rows_after_items rt mk (after_item rt w k) (rows_after_item rt mk w rows k) keys'
  end.

(** Applies [f] to a returned value and leaves the rest as it is. *)
Definition map_result {A B} (f : A -> B) (r : Outcome A * World) : Outcome B * World :=
  match r with
  | (Return a, w) => (Return (f a), w)
  | (Throw e, w) => (Throw e, w)
  | (Pending, w) => (Pending, w)
  end.

(** The objects under a prefix whose body parses, and those whose body
    does not. *)
Definition valid_under (rt : Runtime) (prefix : string) (kb : string * string) : Prop :=
  String.prefix prefix kb.1 = true /\ is_Some (JSON_parse rt kb.2).

Definition corrupt_under (rt : Runtime) (prefix : string) (kb : string * string) : Prop :=
  String.prefix prefix kb.1 = true /\ JSON_parse rt kb.2 = None.

Definition count_valid (rt : Runtime) (prefix : string) (objs : gmap string string) : nat :=
  size (filter (valid_under rt prefix) objs).

Definition count_corrupt (rt : Runtime) (prefix : string) (objs : gmap string string) : nat :=
  size (filter (corrupt_under rt prefix) objs).

(** The parsed documents of the objects under a prefix, one for each
    object whose body parses. *)
Definition valid_documents (rt : Runtime) (prefix : string) (objs : gmap string string)
    : list json :=
  omap (fun kb : string * string => JSON_parse rt kb.2)
       (map_to_list (filter (fun kb : string * string => String.prefix prefix kb.1 = true) objs)).

(** An entry `{key, data}` whose `key` is a key the backend lists under
    the prefix and whose `data` is the parsed body of the object stored
    under that key. *)
Definition listed_entry (rt : Runtime) (prefix : string) (objs : gmap string string)
    (row : json) : Prop :=
  exists k body d,
    row = JObj [("key", JStr k); ("data", d)]
    /\ k ∈ list_keys objs prefix
    /\ objs !! k = Some body
    /\ JSON_parse rt body = Some d.

(** With a backend that answers: the document the loop body pushes
    for the object at [k], and the line it logs instead when there is
    none to push. *)
Definition parsed_at (rt : Runtime) (objs : gmap string string) (k : string) : option json :=
  objs !! k ≫= JSON_parse rt.

Definition failure_of (rt : Runtime) (k : string) (stored : option string) : option LogLine :=
  match stored with
  | Some body =>
      match JSON_parse rt body with
      | Some _ => None
      | None => Some (reading_error k (SyntaxError (JSON_parse_message rt body)))
      end
  | None => Some (reading_error k NoSuchKey)
  end.

Definition failure_at (rt : Runtime) (objs : gmap string string) (k : string) : option LogLine :=
  failure_of rt k (objs !! k).

(** A logged line that reports the corrupt body of an object under the
    prefix. *)
Definition reports_corrupt (rt : Runtime) (prefix : string) (objs : gmap string string)
    (line : LogLine) : Prop :=
  exists k body,
    line = reading_error k (SyntaxError (JSON_parse_message rt body))
    /\ objs !! k = Some body
    /\ String.prefix prefix k = true
    /\ JSON_parse rt body = None.

(** *** Commands and lines of one call *)

(** A command that reads the bucket. *)
Definition is_read (c : Command) : bool :=
  match c with
  | GetObjectCommand _ | ListObjectsV2Command _ _ _ => true
  | PutObjectCommand _ _ | DeleteObjectCommand _ => false
  end.

Definition is_get (c : Command) : bool :=
  match c with GetObjectCommand _ => true | _ => false end.

Definition is_list (c : Command) : bool :=
  match c with ListObjectsV2Command _ _ _ => true | _ => false end.

(** The listings it takes to enumerate [n] keys a thousand at a time:
    one for up to a thousand keys, one more for each further thousand
    begun. *)
Definition listings_for (n : nat) : nat := S ((n - 1) / 1000).

(** The entries `{key, data}` for a list of keys paired with documents. *)
Definition entries_of (picked : list (string * json)) : list json :=
  map (fun kd : string * json => JObj [("key", JStr kd.1); ("data", kd.2)]) picked.

(** The commands sent between [w] and [w']. *)
Definition sent_since (w w' : World) : list Command := drop (length (sent w)) (sent w').

(** The number of objects the bucket holds under a prefix. *)
Definition count_under (prefix : string) (objs : gmap string string) : nat :=
  size (filter (fun kb : string * string => String.prefix prefix kb.1 = true) objs).

(** The sentinel document of a table. *)
Definition table_sentinel (tableName created : string) : json :=
  JObj [("tableName", JStr tableName); ("created", JStr created)].

(** What getPoolCredentials hands out for a pool: null, or a record
    `{bucketName, accessKey, secretKey}` of three truthy values. *)
Definition null_or_complete (v : json) : Prop :=
  v = JNull \/
  exists b a s, v = JObj [("bucketName", b); ("accessKey", a); ("secretKey", s)]
                /\ truthy b = true /\ truthy a = true /\ truthy s = true.

(** ** Single-key reads *)

Lemma send_GetObject_fetch k w :
  send_GetObject k w =
    (match fetch w k with
     | inl e => Throw e
     | inr body => Return (mkGetObjectOutput body)
     end, set_sent (sent w ++ [GetObjectCommand k]) w).
Proof.
  unfold send_GetObject, send, fetch.
  destruct (faults w (length (sent w)) (GetObjectCommand k)); [done|].
  by destruct (objects w !! k).
Qed.

Lemma logged_app w w' ls : console w' = (console w ++ ls)%list -> logged w w' = ls.
Proof. intros H. unfold logged. by rewrite H, drop_app_length. Qed.

Section SingleKey.

Variable rt : Runtime.

(** What get comes to, case by case on the fetch and the parse. *)
Lemma get_outcome (k : string) (w : World) :
  fst (get rt k w) =
    Return (match fetch w k with
            | inr body => default JNull (JSON_parse rt body)
            | inl _ => JNull
            end).
Proof.
  unfold get, try_catch, bind, streamToString, parse, ret.
  rewrite send_GetObject_fetch.
  destruct (fetch w k) as [e|body]; simpl.
  - by destruct (String.eqb (name e) "NoSuchKey").
  - by destruct (JSON_parse rt body).
Qed.


End SingleKey.


Section RoundTrip.

Variable rt : Runtime.

Lemma send_PutObject_ok k body w :
  faults w (length (sent w)) (PutObjectCommand k body) = None ->
  send_PutObject k body w =
    (Return tt, set_objects (<[k := body]> (objects w))
                  (set_sent (sent w ++ [PutObjectCommand k body]) w)).
Proof. intros H. unfold send_PutObject, send. by rewrite H. Qed.

(** C4: a document that JSON carries faithfully, put under a key and
    then read back with get from the same key, with the backend
    answering both commands, comes back equal to itself. *)
Theorem put_then_get_round_trip (k : string) (d : json) (w : World) :
  JSON_parse rt (JSON_stringify rt d) = Some d ->
  faults w (length (sent w)) (PutObjectCommand k (JSON_stringify rt d)) = None ->
  faults w (S (length (sent w))) (GetObjectCommand k) = None ->
  fst ((put rt k d;;; get rt k) w) = Return d.
Proof.
  intros Hjson Hput Hget.
  unfold bind at 1. unfold put, try_catch at 1.
  rewrite send_PutObject_ok by done.
  rewrite get_outcome. unfold fetch. simpl.
  rewrite length_app. simpl. rewrite Nat.add_1_r, Hget.
  by rewrite lookup_insert_eq, Hjson.
Qed.

Lemma send_DeleteObject_ok k w :
  faults w (length (sent w)) (DeleteObjectCommand k) = None ->
  send_DeleteObject k w =
    (Return tt, set_objects (delete k (objects w))
                  (set_sent (sent w ++ [DeleteObjectCommand k]) w)).
Proof. intros H. unfold send_DeleteObject, send. by rewrite H. Qed.

End RoundTrip.

(** An order of the sample bucket, overwritten and read back. *)
Lemma put_then_get_round_trip_witness :
  JSON_parse Reference.runtime (JSON_stringify Reference.runtime (Samples.order 7))
    = Some (Samples.order 7)
  /\ fst ((put Reference.runtime "orders/1.json" (Samples.order 7);;;
        get Reference.runtime "orders/1.json") Samples.world)
  = Return (Samples.order 7).
Proof.
  split; [vm_compute; reflexivity|].
  apply (put_then_get_round_trip Reference.runtime "orders/1.json" (Samples.order 7) Samples.world);
    vm_compute; reflexivity.
Defined.

(** ** Pool credentials *)

Section PoolCredentials.

Variable rt : Runtime.

Lemma names_pool_branch profileId :
  names_pool profileId ->
  absent profileId || bool_decide (profileId = Some "default") = false.
Proof.
  intros [Ha Hd]. rewrite Ha. simpl. by apply bool_decide_eq_false.
Qed.

Lemma default_branch profileId :
  absent profileId = true \/ profileId = Some "default" ->
  absent profileId || bool_decide (profileId = Some "default") = true.
Proof.
  intros [-> | ->]; [done|]. by rewrite orb_true_r.
Qed.


(** Without a credentials value the property read of the default
    branch raises, outside every try block. *)
Lemma getPoolCredentials_default_without_credentials (profileId : option string) (w : World) :
  absent profileId = true \/ profileId = Some "default" ->
  credentials (this w) = undefined ->
  getPoolCredentials rt profileId w =
    (Throw (TypeError "Cannot read properties of undefined (reading 'accessKeyId')"), w).
Proof.
  intros Hdef Hcred. unfold getPoolCredentials.
  rewrite (default_branch _ Hdef). unfold bind, eval. by rewrite Hcred.
Qed.


(** C8, amended: for a profile that names a pool whose record is
    fetched and parsed, getPoolCredentials returns the record
    `{bucketName, accessKey, secretKey}` that holds the fetched record's
    own three values, unchanged, when all three are present and truthy; a record with a field absent or falsy (an empty
    string, say), or a record that is not an object, ends in null.  No
    process-default constant is ever substituted. *)
Theorem getPoolCredentials_complete_or_null
    (profileId : option string) (w : World) (body : string) (poolData : json) :
  names_pool profileId ->
  fetch w (pool_key profileId) = inr body ->
  JSON_parse rt body = Some poolData ->
  fst (getPoolCredentials rt profileId w) =
    Return (match complete_record poolData with
            | Some (b, a, s) => JObj [("bucketName", b); ("accessKey", a); ("secretKey", s)]
            | None => JNull
            end).
Proof.
  intros Hpool Hfetch Hparse. unfold getPoolCredentials.
  rewrite (names_pool_branch _ Hpool).
  unfold try_catch, bind, console_log. rewrite send_GetObject_fetch.
  change (fetch (set_console _ w) (pool_key profileId)) with (fetch w (pool_key profileId)).
  rewrite Hfetch. unfold streamToString, parse, ret. simpl. rewrite Hparse.
  unfold complete_record, truthy_field, or_else, missing, bind, eval, ret.
  destruct poolData as [|[]|n|s|items|props]; simpl; try done.
  - by destruct (n =? 0)%Z.
  - by destruct (String.eqb s "").
  - destruct (lookup_prop "bucketName" props) as [b|]; simpl; [|done].
    destruct (truthy b) eqn:Hb; simpl; [|done].
    destruct (lookup_prop "accessKey" props) as [a|]; simpl; [|done].
    destruct (truthy a) eqn:Ha; simpl; [|done].
    destruct (lookup_prop "secretKey" props) as [s|]; simpl; [|done].
    destruct (truthy s) eqn:Hs; simpl; done.
Qed.

End PoolCredentials.



Lemma names_pool_sample (id : string) :
  String.eqb id "" = false -> String.eqb id "default" = false -> names_pool (Some id).
Proof.
  intros He Hd. split; [exact He|].
  intros [= ->]. by rewrite String.eqb_refl in Hd.
Defined.



(** C8 as stated fails: the record `pools/blank.json` has its three
    fields, the access key an empty string; getPoolCredentials returns
    null where the claim has the constant put in its place. *)
Lemma getPoolCredentials_rejects_falsy_field :
  fetch Samples.world (pool_key (Some "blank")) = inr (Reference.stringify Samples.blank_pool)
  /\ JSON_parse Reference.runtime (Reference.stringify Samples.blank_pool) = Some Samples.blank_pool
  /\ truthy_field Samples.blank_pool "accessKey" = None
  /\ get_prop (Some Samples.blank_pool) "accessKey" = Return (Some (JStr ""))
  /\ fst (getPoolCredentials Reference.runtime (Some "blank") Samples.world) = Return JNull
  /\ fst (getPoolCredentials Reference.runtime (Some "blank") Samples.world) <>
       Return (JObj [("bucketName", JStr "blank-media");
                     ("accessKey", JStr (s3AccessKeyDB Reference.runtime));
                     ("secretKey", JStr "s3cr3t")]).
Proof.
  assert (H : fst (getPoolCredentials Reference.runtime (Some "blank") Samples.world)
              = Return JNull) by (vm_compute; reflexivity).
  do 4 (split; [vm_compute; reflexivity|]).
  split; [exact H|].
  rewrite H. discriminate.
Qed.

Lemma getPoolCredentials_complete_or_null_witness :
  names_pool (Some "acme")
  /\ fetch Samples.world (pool_key (Some "acme")) = inr (Reference.stringify Samples.acme_pool)
  /\ JSON_parse Reference.runtime (Reference.stringify Samples.acme_pool) = Some Samples.acme_pool
  /\ fst (getPoolCredentials Reference.runtime (Some "acme") Samples.world) =
       Return (JObj [("bucketName", JStr "acme-media"); ("accessKey", JStr "AKIAACME");
                     ("secretKey", JStr "s3cr3t")]).
Proof.
  assert (Hn : names_pool (Some "acme")) by (apply names_pool_sample; reflexivity).
  assert (Hf : fetch Samples.world (pool_key (Some "acme"))
               = inr (Reference.stringify Samples.acme_pool)) by (vm_compute; reflexivity).
  assert (Hp : JSON_parse Reference.runtime (Reference.stringify Samples.acme_pool)
               = Some Samples.acme_pool) by (vm_compute; reflexivity).
  split; [exact Hn|split; [exact Hf|split; [exact Hp|]]].
  exact (getPoolCredentials_complete_or_null Reference.runtime (Some "acme") Samples.world
           _ _ Hn Hf Hp).
Defined.

(** ** Table initialisation *)


Section Tables.

Variable rt : Runtime.

Lemma ensureTable_cached (tableName : string) (w : World) :
  tableName ∈ tables (this w) -> ensureTable rt tableName w = (Return tt, w).
Proof.
  intros Hin. unfold ensureTable, bind, tables_has.
  by rewrite bool_decide_eq_true_2.
Qed.



(** A fetch of the sentinel that fails, whatever the error, is followed
    by a write of the sentinel; when the write goes through the table is
    marked known and the call returns. *)
Lemma ensureTable_creates_on_any_fetch_error (tableName : string) (w : World) (e : JsError) :
  tableName ∉ tables (this w) ->
  fetch w (metadata_key tableName) = inl e ->
  faults w (S (length (sent w)))
    (PutObjectCommand (metadata_key tableName)
       (JSON_stringify rt (JObj [("tableName", JStr tableName); ("created", JStr (now w))])))
    = None ->
  exists w1,
    ensureTable rt tableName w = (Return tt, w1)
    /\ tableName ∈ tables (this w1)
    /\ objects w1 !! metadata_key tableName =
         Some (JSON_stringify rt (JObj [("tableName", JStr tableName); ("created", JStr (now w))]))
    /\ console w1 = console w.
Proof.
  intros Hnot Hfetch Hput. unfold ensureTable, bind at 1, tables_has.
  rewrite bool_decide_eq_false_2 by done.
  unfold try_catch, bind. rewrite send_GetObject_fetch, Hfetch.
  unfold Date_toISOString. rewrite send_PutObject_ok.
  - eexists. split; [reflexivity|]. simpl.
    split; [set_solver|]. split; [apply lookup_insert_eq|done].
  - simpl. by rewrite length_app, Nat.add_1_r.
Qed.

End Tables.


(** C3 fails on the code: the sentinel of `invoices` exists, the backend
    refuses the fetch with AccessDenied, and ensureTable writes a new
    sentinel over the old one, marks the table known and returns, with
    nothing logged and nothing raised. *)
Lemma ensureTable_overwrites_on_access_denied :
  fetch Samples.denied_world (metadata_key "invoices") = inl Samples.AccessDenied
  /\ name Samples.AccessDenied <> "NoSuchKey"
  /\ objects Samples.denied_world !! metadata_key "invoices"
       = Some (Reference.stringify Samples.invoices_sentinel)
  /\ fst (ensureTable Reference.runtime "invoices" Samples.denied_world) = Return tt
  /\ objects (snd (ensureTable Reference.runtime "invoices" Samples.denied_world))
       !! metadata_key "invoices"
       = Some (Reference.stringify
                 (JObj [("tableName", JStr "invoices");
                        ("created", JStr "2024-05-01T12:00:00.000Z")]))
  /\ "invoices" ∈ tables (this (snd (ensureTable Reference.runtime "invoices" Samples.denied_world)))
  /\ console (snd (ensureTable Reference.runtime "invoices" Samples.denied_world)) = [].
Proof.
  assert (Hnot : "invoices" ∉ tables (this Samples.denied_world)) by apply not_elem_of_empty.
  destruct (ensureTable_creates_on_any_fetch_error Reference.runtime "invoices"
              Samples.denied_world Samples.AccessDenied Hnot eq_refl eq_refl)
    as (w1 & Hrun & Hin & Hobj & Hlog).
  rewrite Hrun. simpl.
  split; [vm_compute; reflexivity|].
  split; [vm_compute; discriminate|].
  split; [vm_compute; reflexivity|].
  split; [reflexivity|].
  split; [exact Hobj|].
  split; [exact Hin|exact Hlog].
Qed.

(** ** Prefix scans *)

Section Scans.

Variable rt : Runtime.

Lemma getS3Data_unfold prefix w :
  getS3Data rt prefix w =
    for_await_pages (pages_fuel w prefix) prefix 1000 None (scan_page rt bare_row) [] w.
Proof. reflexivity. Qed.

Lemma getS3DataWithKey_unfold prefix w :
  getS3DataWithKey rt prefix w =
    for_await_pages (pages_fuel w prefix) prefix 1000 None (scan_page rt keyed_row) [] w.
Proof. reflexivity. Qed.

(** The loop body always completes: a failure is logged and the rows
    are left as they were. *)
Lemma read_item_eq mk rows obj w :
  read_item rt mk rows obj w =
    (Return (rows_after_item rt mk w rows (Key obj)), after_item rt w (Key obj)).
Proof.
  unfold read_item, try_catch, bind, rows_after_item, after_item, item_outcome.
  rewrite send_GetObject_fetch.
  destruct (fetch w (Key obj)) as [e|body]; simpl; [done|].
  unfold parse. by destruct (JSON_parse rt body).
Qed.

Lemma for_of_read_items mk contents rows w :
  for_of contents (read_item rt mk) rows w =
    (Return (rows_after_items rt mk w rows (map Key contents)),
     after_items rt w (map Key contents)).
Proof.
  revert rows w. induction contents as [|obj contents IH]; intros rows w; simpl; [done|].
  unfold bind. rewrite read_item_eq. apply IH.
Qed.

Lemma rows_after_items_data_of w rows keys :
  rows_after_items rt bare_row w (map data_of rows) keys =
    map data_of (rows_after_items rt keyed_row w rows keys).
Proof.
  revert rows w. induction keys as [|k keys IH]; intros rows w; simpl; [done|].
  rewrite <- IH. f_equal. unfold rows_after_item.
  destruct (item_outcome rt w k); [done|]. by rewrite map_app.
Qed.

Lemma scan_page_data_of rows page w :
  scan_page rt bare_row (map data_of rows) page w =
    map_result (map data_of) (scan_page rt keyed_row rows page w).
Proof.
  unfold scan_page. destruct (Contents page) as [contents|]; [|done].
  rewrite !for_of_read_items. simpl. by rewrite rows_after_items_data_of.
Qed.

Lemma pages_data_of fuel prefix token rows w :
  for_await_pages fuel prefix 1000 token (scan_page rt bare_row) (map data_of rows) w =
    map_result (map data_of)
      (for_await_pages fuel prefix 1000 token (scan_page rt keyed_row) rows w).
Proof.
  revert token rows w. induction fuel as [|fuel IH]; intros token rows w; simpl; [done|].
  unfold bind.
  destruct (send_ListObjectsV2 prefix 1000 token w) as [[page|e|] w1]; simpl; try done.
  rewrite scan_page_data_of.
  destruct (scan_page rt keyed_row rows page w1) as [[rows'|e|] w2]; simpl; try done.
  destruct (NextContinuationToken page); [apply IH|done].
Qed.

(** C10: on every world and for every prefix, getS3Data comes to what
    getS3DataWithKey comes to with `data` taken out of each entry, in
    the same order: the same rows, the same error if the listing fails,
    the same commands sent and the same lines logged. *)
Theorem getS3Data_is_getS3DataWithKey_data (prefix : string) (w : World) :
  getS3Data rt prefix w = map_result (map data_of) (getS3DataWithKey rt prefix w).
Proof.
  rewrite getS3Data_unfold, getS3DataWithKey_unfold.
  apply (pages_data_of (pages_fuel w prefix) prefix None [] w).
Qed.

Lemma item_outcome_parsed w k d :
  item_outcome rt w k = inr d ->
  exists body, objects w !! k = Some body /\ JSON_parse rt body = Some d.
Proof.
  unfold item_outcome, fetch.
  destruct (faults w (length (sent w)) (GetObjectCommand k)); [done|].
  destruct (objects w !! k) as [body|]; [|done].
  destruct (JSON_parse rt body) as [d'|] eqn:Hd; [|done].
  intros [= <-]. eauto.
Qed.

Lemma after_item_objects w k : objects (after_item rt w k) = objects w.
Proof. unfold after_item. by destruct (item_outcome rt w k). Qed.

Lemma after_item_faults w k : faults (after_item rt w k) = faults w.
Proof. unfold after_item. by destruct (item_outcome rt w k). Qed.

Lemma after_items_objects w keys : objects (after_items rt w keys) = objects w.
Proof.
  revert w. induction keys as [|k keys IH]; intros w; simpl; [done|].
  by rewrite IH, after_item_objects.
Qed.

Lemma after_items_faults w keys : faults (after_items rt w keys) = faults w.
Proof.
  revert w. induction keys as [|k keys IH]; intros w; simpl; [done|].
  by rewrite IH, after_item_faults.
Qed.

Lemma rows_after_items_listed prefix objs w rows keys :
  objects w = objs ->
  Forall (fun k => k ∈ list_keys objs prefix) keys ->
  Forall (listed_entry rt prefix objs) rows ->
  Forall (listed_entry rt prefix objs) (rows_after_items rt keyed_row w rows keys).
Proof.
  revert w rows. induction keys as [|k keys IH]; intros w rows Hobjs Hkeys Hrows; simpl; [done|].
  inversion Hkeys as [|? ? Hk Hkeys']; subst.
  apply IH; [apply after_item_objects|done|].
  unfold rows_after_item. destruct (item_outcome rt w k) as [e|d] eqn:Hout; [done|].
  apply Forall_app. split; [done|]. apply Forall_singleton.
  destruct (item_outcome_parsed _ _ _ Hout) as (body & Hbody & Hd).
  exists k, body, d. done.
Qed.

(** A listing that is answered leaves the bucket alone and names keys
    the bucket holds under the prefix. *)
Lemma send_ListObjectsV2_page prefix token w page w1 :
  send_ListObjectsV2 prefix 1000 token w = (Return page, w1) ->
  objects w1 = objects w
  /\ faults w1 = faults w
  /\ page = list_page (objects w) prefix 1000 (default 0 token).
Proof.
  unfold send_ListObjectsV2, send.
  destruct (faults w (length (sent w)) (ListObjectsV2Command prefix 1000 token)); [done|].
  by intros [= <- <-].
Qed.

Lemma list_page_contents objs prefix skip contents :
  Contents (list_page objs prefix 1000 skip) = Some contents ->
  map Key contents = take 1000 (drop skip (list_keys objs prefix)).
Proof.
  unfold list_page. simpl.
  destruct (take 1000 (drop skip (list_keys objs prefix))) as [|k ks] eqn:Hhere; [done|].
  intros [= <-]. simpl. f_equal. rewrite List.map_map. apply List.map_id.
Qed.

Lemma pages_listed fuel prefix objs token rows w rows' w' :
  objects w = objs ->
  Forall (listed_entry rt prefix objs) rows ->
  for_await_pages fuel prefix 1000 token (scan_page rt keyed_row) rows w = (Return rows', w') ->
  Forall (listed_entry rt prefix objs) rows'.
Proof.
  revert token rows w. induction fuel as [|fuel IH]; intros token rows w Hobjs Hrows; simpl; [done|].
  unfold bind.
  destruct (send_ListObjectsV2 prefix 1000 token w) as [[page|e|] w1] eqn:Hlist; try done.
  destruct (send_ListObjectsV2_page _ _ _ _ _ Hlist) as (Hobjs1 & _ & Hpage).
  unfold scan_page at 1.
  destruct (Contents page) as [contents|] eqn:Hcontents.
  - rewrite for_of_read_items.
    assert (Hnext : Forall (listed_entry rt prefix objs)
                      (rows_after_items rt keyed_row w1 rows (map Key contents))).
    { apply rows_after_items_listed; [congruence| |done].
      rewrite Hpage in Hcontents. rewrite (list_page_contents _ _ _ _ Hcontents), Hobjs.
      apply Forall_forall. intros k Hk.
      eapply elem_of_sublist; [|apply sublist_drop].
      eapply elem_of_sublist; [exact Hk|apply sublist_take]. }
    destruct (NextContinuationToken page).
    + apply IH; [|done]. rewrite after_items_objects. congruence.
    + by intros [= <- <-].
  - unfold ret. destruct (NextContinuationToken page).
    + apply IH; [congruence|done].
    + by intros [= <- <-].
Qed.

(** C9: every entry getS3DataWithKey returns is a `{key, data}` pair
    whose key is one of the keys the backend lists under the prefix, in
    full, and whose data is the parsed body of the object stored under
    that very key. *)
Theorem getS3DataWithKey_entries_carry_their_key
    (prefix : string) (w : World) (rows : list json) (w' : World) :
  getS3DataWithKey rt prefix w = (Return rows, w') ->
  Forall (listed_entry rt prefix (objects w)) rows.
Proof.
  rewrite getS3DataWithKey_unfold. intros Hrun.
  by eapply (pages_listed _ prefix (objects w) None [] w rows w').
Qed.

Lemma item_outcome_fault_free w k :
  fault_free w ->
  item_outcome rt w k =
    match objects w !! k with
    | Some body =>
        match JSON_parse rt body with
        | Some d => inr d
        | None => inl (SyntaxError (JSON_parse_message rt body))
        end
    | None => inl NoSuchKey
    end.
Proof.
  intros Hff. unfold item_outcome, fetch. rewrite Hff.
  by destruct (objects w !! k).
Qed.

Lemma after_item_fault_free w k : fault_free w -> fault_free (after_item rt w k).
Proof. intros Hff n c. rewrite after_item_faults. apply Hff. Qed.

Lemma after_item_console w k :
  fault_free w ->
  console (after_item rt w k) =
    (console w ++ option_list (failure_at rt (objects w) k))%list.
Proof.
  intros Hff. unfold after_item, failure_at, failure_of.
  rewrite item_outcome_fault_free by done.
  destruct (objects w !! k) as [body|]; simpl; [|done].
  destruct (JSON_parse rt body); simpl; [|done]. by rewrite app_nil_r.
Qed.

Lemma rows_after_item_fault_free mk w rows k :
  fault_free w ->
  rows_after_item rt mk w rows k =
    (rows ++ option_list (mk k <$> parsed_at rt (objects w) k))%list.
Proof.
  intros Hff. unfold rows_after_item, parsed_at.
  rewrite item_outcome_fault_free by done.
  destruct (objects w !! k) as [body|]; simpl; [|by rewrite app_nil_r].
  destruct (JSON_parse rt body); simpl; [done|by rewrite app_nil_r].
Qed.

Lemma omap_cons_option_list {A B} (f : A -> option B) (x : A) (l : list A) :
  omap f (x :: l) = (option_list (f x) ++ omap f l)%list.
Proof. simpl. by destruct (f x). Qed.

Lemma items_fault_free mk w rows keys :
  fault_free w ->
  rows_after_items rt mk w rows keys =
    (rows ++ omap (fun k => mk k <$> parsed_at rt (objects w) k) keys)%list
  /\ console (after_items rt w keys) =
       (console w ++ omap (failure_at rt (objects w)) keys)%list.
Proof.
  revert w rows. induction keys as [|k keys IH]; intros w rows Hff.
  - simpl. by rewrite !app_nil_r.
  - cbn [rows_after_items after_items].
    destruct (IH (after_item rt w k) (rows_after_item rt mk w rows k)
                (after_item_fault_free w k Hff)) as [-> ->].
    rewrite after_item_objects, after_item_console, rows_after_item_fault_free by done.
    rewrite !omap_cons_option_list, !app_assoc. done.
Qed.

Lemma fault_free_listing_answered w : fault_free w -> listing_answered w.
Proof. intros Hff n prefix maxKeys token. apply Hff. Qed.

Lemma send_ListObjectsV2_answered prefix token w :
  listing_answered w ->
  send_ListObjectsV2 prefix 1000 token w =
    (Return (list_page (objects w) prefix 1000 (default 0 token)),
     set_sent (sent w ++ [ListObjectsV2Command prefix 1000 token]) w).
Proof. intros Hla. unfold send_ListObjectsV2, send. by rewrite Hla. Qed.

Lemma map_Key_mkObject (keys : list string) : map Key (map mkObject keys) = keys.
Proof. rewrite List.map_map. apply List.map_id. Qed.

(** One turn of the page loop when the listing is answered. *)
Lemma page_step mk fuel prefix token rows w :
  listing_answered w ->
  for_await_pages (S fuel) prefix 1000 token (scan_page rt mk) rows w =
    let rest := drop (default 0 token) (list_keys (objects w) prefix) in
    let w1 := set_sent (sent w ++ [ListObjectsV2Command prefix 1000 token]) w in
    let rows1 := rows_after_items rt mk w1 rows (take 1000 rest) in
    let w2 := after_items rt w1 (take 1000 rest) in
    match drop 1000 rest with
    | [] => (Return rows1, w2)
    | _ :: _ =>
        for_await_pages fuel prefix 1000 (Some (default 0 token + 1000))
          (scan_page rt mk) rows1 w2
    end.
Proof.
  intros Hla. cbn [for_await_pages]. unfold bind at 1.
  rewrite send_ListObjectsV2_answered by done.
  unfold bind, scan_page, list_page. cbn [Contents NextContinuationToken objects set_sent].
  destruct (take 1000 (drop (default 0 token) (list_keys (objects w) prefix)))
    as [|k here] eqn:Hhere.
  - unfold ret. cbn [rows_after_items after_items].
    by destruct (drop 1000 (drop (default 0 token) (list_keys (objects w) prefix))).
  - rewrite for_of_read_items, map_Key_mkObject.
    by destruct (drop 1000 (drop (default 0 token) (list_keys (objects w) prefix))).
Qed.

Lemma pages_fault_free mk fuel prefix token rows w :
  fault_free w ->
  length (drop (default 0 token) (list_keys (objects w) prefix)) < fuel ->
  exists w',
    for_await_pages fuel prefix 1000 token (scan_page rt mk) rows w =
      (Return (rows ++ omap (fun k => mk k <$> parsed_at rt (objects w) k)
                         (drop (default 0 token) (list_keys (objects w) prefix)))%list, w')
    /\ objects w' = objects w
    /\ console w' =
         (console w ++ omap (failure_at rt (objects w))
                         (drop (default 0 token) (list_keys (objects w) prefix)))%list.
Proof.
  revert token rows w. induction fuel as [|fuel IH]; intros token rows w Hff Hfuel; [lia|].
  rewrite page_step by (by apply fault_free_listing_answered). cbv zeta.
  set (rest := drop (default 0 token) (list_keys (objects w) prefix)) in *.
  set (w1 := set_sent (sent w ++ [ListObjectsV2Command prefix 1000 token]) w).
  assert (Hff1 : fault_free w1) by exact Hff.
  destruct (items_fault_free mk w1 rows (take 1000 rest) Hff1) as [Hrows Hlog].
  change (objects w1) with (objects w) in Hrows, Hlog.
  change (console w1) with (console w) in Hlog.
  destruct (drop 1000 rest) as [|k more] eqn:Hmore.
  - assert (Hall : take 1000 rest = rest).
    { rewrite <- (take_drop 1000 rest) at 2. by rewrite Hmore, app_nil_r. }
    rewrite Hall in *. eexists. split; [by rewrite Hrows|].
    split; [by rewrite after_items_objects|done].
  - assert (Hskip : drop (default 0 (Some (default 0 token + 1000)))
                       (list_keys (objects w) prefix) = drop 1000 rest).
    { unfold rest. rewrite drop_drop. reflexivity. }
    destruct (IH (Some (default 0 token + 1000))
                (rows_after_items rt mk w1 rows (take 1000 rest))
                (after_items rt w1 (take 1000 rest))) as (w' & Hrun & Hobjs & Hcons).
    + intros n c. rewrite after_items_faults. apply Hff.
    + rewrite after_items_objects. change (objects w1) with (objects w).
      rewrite Hskip.
      assert (Hlen : length (drop 1000 rest) = length rest - 1000) by apply length_drop.
      rewrite Hmore in Hlen. rewrite Hmore. simpl in Hlen. simpl. lia.
    + revert Hrun Hobjs Hcons. rewrite after_items_objects.
      change (objects w1) with (objects w).
      rewrite Hskip, Hrows, Hlog. intros Hrun Hobjs Hcons.
      exists w'. rewrite Hrun, Hobjs, Hcons.
      rewrite <- !app_assoc, <- !omap_app, !take_drop. done.
Qed.

(** *** Counting the objects of a bucket *)

Lemma map_to_list_filter_perm (P : string * string -> Prop)
    `{forall kb, Decision (P kb)} (objs : gmap string string) :
  map_to_list (filter P objs) ≡ₚ filter P (map_to_list objs).
Proof.
  apply NoDup_Permutation.
  - apply NoDup_map_to_list.
  - apply NoDup_filter, NoDup_map_to_list.
  - intros [k b]. rewrite list_elem_of_filter, !elem_of_map_to_list.
    rewrite map_lookup_filter_Some. tauto.
Qed.

Lemma size_filter_map_to_list (P : string * string -> Prop)
    `{forall kb, Decision (P kb)} (objs : gmap string string) :
  size (filter P objs) = length (filter P (map_to_list objs)).
Proof. by rewrite <- length_map_to_list, map_to_list_filter_perm. Qed.

Lemma length_omap_filter {A B} (f : A -> option B) (l : list A) :
  length (omap f l) = length (filter (fun x => is_Some (f x)) l).
Proof.
  induction l as [|x l IH]; [done|].
  rewrite filter_cons, omap_cons_option_list. destruct (f x) as [y|] eqn:Hfx.
  - rewrite decide_True by eauto. simpl. by rewrite IH.
  - rewrite decide_False by (by intros [? ?]). done.
Qed.

(** Looking each listed key up in the bucket gives the body the
    enumeration pairs it with. *)
Lemma omap_keys_entries {B} (objs : gmap string string)
    (h : string -> option string -> option B) (prefix : string)
    (l : list (string * string)) :
  (forall k b, (k, b) ∈ l -> objs !! k = Some b) ->
  omap (fun k => h k (objs !! k)) (filter (fun k => String.prefix prefix k = true) l.*1) =
  omap (fun kb : string * string => h kb.1 (Some kb.2))
       (filter (fun kb : string * string => String.prefix prefix kb.1 = true) l).
Proof.
  induction l as [|[k b] l IH]; intros Hl; [done|].
  rewrite fmap_cons, !filter_cons. cbn [fst snd].
  assert (Hk : objs !! k = Some b) by (apply Hl; left).
  assert (IH' := IH (fun k' b' Hin => Hl k' b' (list_elem_of_further _ _ _ Hin))).
  destruct (decide (String.prefix prefix k = true)); [|exact IH'].
  rewrite !omap_cons_option_list. cbn [fst snd]. by rewrite Hk, IH'.
Qed.

Lemma list_keys_entries {B} (objs : gmap string string)
    (h : string -> option string -> option B) (prefix : string) :
  omap (fun k => h k (objs !! k)) (list_keys objs prefix) =
  omap (fun kb : string * string => h kb.1 (Some kb.2))
       (filter (fun kb : string * string => String.prefix prefix kb.1 = true)
               (map_to_list objs)).
Proof.
  unfold list_keys. apply omap_keys_entries.
  intros k b. apply elem_of_map_to_list.
Qed.

Lemma parsed_rows_perm prefix objs :
  omap (parsed_at rt objs) (list_keys objs prefix) ≡ₚ valid_documents rt prefix objs.
Proof.
  unfold valid_documents, parsed_at.
  rewrite (list_keys_entries objs (fun _ stored => stored ≫= JSON_parse rt) prefix).
  rewrite map_to_list_filter_perm. done.
Qed.

Lemma parsed_rows_length prefix objs :
  length (omap (parsed_at rt objs) (list_keys objs prefix)) = count_valid rt prefix objs.
Proof.
  unfold count_valid, parsed_at.
  rewrite (list_keys_entries objs (fun _ stored => stored ≫= JSON_parse rt) prefix).
  rewrite length_omap_filter, size_filter_map_to_list, list_filter_filter.
  f_equal. apply list_filter_iff. intros [k b]. unfold valid_under. simpl. tauto.
Qed.

Lemma failure_lines_length prefix objs :
  length (omap (failure_at rt objs) (list_keys objs prefix)) = count_corrupt rt prefix objs.
Proof.
  unfold count_corrupt, failure_at.
  rewrite (list_keys_entries objs (failure_of rt) prefix).
  rewrite length_omap_filter, size_filter_map_to_list, list_filter_filter.
  f_equal. apply list_filter_iff. intros [k b]. unfold corrupt_under, failure_of. simpl.
  destruct (JSON_parse rt b); split.
  - by intros [[? ?] _].
  - by intros [_ ?].
  - by intros [_ ?].
  - intros [? _]. eauto.
Qed.

Lemma failure_lines_report prefix objs :
  Forall (reports_corrupt rt prefix objs) (omap (failure_at rt objs) (list_keys objs prefix)).
Proof.
  unfold failure_at.
  rewrite (list_keys_entries objs (failure_of rt) prefix).
  apply Forall_forall. intros line Hline.
  apply list_elem_of_omap in Hline as ([k b] & Hin & Hfail).
  apply list_elem_of_filter in Hin as [Hprefix Hin].
  apply elem_of_map_to_list in Hin. simpl in *.
  destruct (JSON_parse rt b) eqn:Hparse; [done|].
  injection Hfail as <-. exists k, b. done.
Qed.

Lemma omap_bare_row (f : string -> option json) (keys : list string) :
  omap (fun k => bare_row k <$> f k) keys = omap f keys.
Proof.
  induction keys as [|k keys IH]; [done|].
  rewrite !omap_cons_option_list, IH. by destruct (f k).
Qed.

(** C5: with a backend that answers, getS3Data on a prefix returns: as
    many rows as the bucket holds objects under the prefix whose body
    parses as JSON, the rows being the parsed documents of those objects
    (as a multiset, whatever the order of the listing); one logged error
    line for each object under the prefix whose body does not parse,
    each naming such an object; no error is raised and the bucket is
    left as it was. *)
Theorem getS3Data_returns_the_valid_documents (prefix : string) (w : World) :
  fault_free w ->
  exists rows w',
    getS3Data rt prefix w = (Return rows, w')
    /\ length rows = count_valid rt prefix (objects w)
    /\ rows ≡ₚ valid_documents rt prefix (objects w)
    /\ length (logged w w') = count_corrupt rt prefix (objects w)
    /\ Forall (reports_corrupt rt prefix (objects w)) (logged w w')
    /\ objects w' = objects w.
Proof.
  intros Hff. rewrite getS3Data_unfold.
  destruct (pages_fault_free bare_row (pages_fuel w prefix) prefix None [] w Hff)
    as (w' & Hrun & Hobjs & Hlog).
  { unfold pages_fuel. change (default 0 None) with 0. rewrite drop_0. lia. }
  change (default 0 None) with 0 in Hrun, Hlog.
  rewrite drop_0, app_nil_l in Hrun. rewrite drop_0 in Hlog.
  assert (Hrows : omap (fun k => bare_row k <$> parsed_at rt (objects w) k)
                    (list_keys (objects w) prefix)
                  = omap (parsed_at rt (objects w)) (list_keys (objects w) prefix)).
  { apply omap_bare_row. }
  rewrite Hrows in Hrun.
  eexists _, w'. split; [exact Hrun|].
  rewrite (logged_app w w' _ Hlog).
  split; [apply parsed_rows_length|].
  split; [apply parsed_rows_perm|].
  split; [apply failure_lines_length|].
  split; [apply failure_lines_report|done].
Qed.

(** *** The page loop ends *)

Lemma send_ListObjectsV2_settles prefix token w :
  fst (send_ListObjectsV2 prefix 1000 token w) <> Pending.
Proof.
  unfold send_ListObjectsV2, send.
  by destruct (faults w (length (sent w)) (ListObjectsV2Command prefix 1000 token)).
Qed.

Lemma scan_page_returns mk rows page w :
  exists rows' w', scan_page rt mk rows page w = (Return rows', w')
                   /\ objects w' = objects w.
Proof.
  unfold scan_page. destruct (Contents page) as [contents|].
  - rewrite for_of_read_items. eexists _, _. split; [done|apply after_items_objects].
  - by eexists _, _.
Qed.

(** Whatever the backend does, the fuel a scan starts with outlasts the
    pages of the listing. *)
Lemma pages_settle mk fuel prefix token rows w :
  length (drop (default 0 token) (list_keys (objects w) prefix)) < fuel ->
  fst (for_await_pages fuel prefix 1000 token (scan_page rt mk) rows w) <> Pending.
Proof.
  revert token rows w. induction fuel as [|fuel IH]; intros token rows w Hfuel; [lia|].
  cbn [for_await_pages]. unfold bind at 1.
  destruct (send_ListObjectsV2 prefix 1000 token w) as [[page|e|] w1] eqn:Hlist; [|done|].
  - destruct (send_ListObjectsV2_page _ _ _ _ _ Hlist) as (Hobjs1 & _ & Hpage).
    unfold bind.
    destruct (scan_page_returns mk rows page w1) as (rows' & w2 & -> & Hobjs2).
    destruct (NextContinuationToken page) as [t|] eqn:Hnext; [|done].
    apply IH. rewrite Hobjs2, Hobjs1. rewrite Hpage in Hnext.
    unfold list_page in Hnext. cbn [NextContinuationToken] in Hnext.
    destruct (drop 1000 (drop (default 0 token) (list_keys (objects w) prefix)))
      as [|k more] eqn:Hmore; [done|].
    injection Hnext as <-.
    replace (drop (default 0 (Some (default 0 token + 1000))) (list_keys (objects w) prefix))
      with (drop 1000 (drop (default 0 token) (list_keys (objects w) prefix)))
      by (rewrite drop_drop; reflexivity).
    rewrite Hmore.
    assert (Hlen : length (drop 1000 (drop (default 0 token) (list_keys (objects w) prefix)))
                   = length (drop (default 0 token) (list_keys (objects w) prefix)) - 1000)
      by apply length_drop.
    rewrite Hmore in Hlen. simpl in Hlen. simpl. lia.
  - pose proof (send_ListObjectsV2_settles prefix token w) as Hs.
    by rewrite Hlist in Hs.
Qed.

(** Both scans come to an end: they return their rows or raise the
    error of a failed listing. *)
Lemma scans_settle prefix w :
  fst (getS3Data rt prefix w) <> Pending /\ fst (getS3DataWithKey rt prefix w) <> Pending.
Proof.
  rewrite getS3Data_unfold, getS3DataWithKey_unfold.
  split; apply pages_settle; unfold pages_fuel;
    change (default 0 None) with 0; rewrite drop_0; lia.
Qed.

Lemma pages_return mk fuel prefix token rows w :
  listing_answered w ->
  length (drop (default 0 token) (list_keys (objects w) prefix)) < fuel ->
  exists rows' w',
    for_await_pages fuel prefix 1000 token (scan_page rt mk) rows w = (Return rows', w').
Proof.
  revert token rows w. induction fuel as [|fuel IH]; intros token rows w Hla Hfuel; [lia|].
  rewrite page_step by done. cbv zeta.
  destruct (drop 1000 (drop (default 0 token) (list_keys (objects w) prefix)))
    as [|k more] eqn:Hmore; [by eexists _, _|].
  apply IH.
  - intros n p m t. rewrite after_items_faults. apply Hla.
  - rewrite after_items_objects. cbn [objects set_sent].
    replace (drop (default 0 (Some (default 0 token + 1000))) (list_keys (objects w) prefix))
      with (drop 1000 (drop (default 0 token) (list_keys (objects w) prefix)))
      by (rewrite drop_drop; reflexivity).
    rewrite Hmore.
    assert (Hlen : length (drop 1000 (drop (default 0 token) (list_keys (objects w) prefix)))
                   = length (drop (default 0 token) (list_keys (objects w) prefix)) - 1000)
      by apply length_drop.
    rewrite Hmore in Hlen. simpl in Hlen. simpl. lia.
Qed.

(** A scan whose listing is answered returns, whatever becomes of the
    fetches of the single objects: each failure is logged by the loop
    body and its object left out. *)
Lemma scans_return_when_listing_answered prefix w :
  listing_answered w ->
  (exists rows w', getS3Data rt prefix w = (Return rows, w'))
  /\ (exists rows w', getS3DataWithKey rt prefix w = (Return rows, w')).
Proof.
  intros Hla. rewrite getS3Data_unfold, getS3DataWithKey_unfold.
  split; apply pages_return; try done; unfold pages_fuel;
    change (default 0 None) with 0; rewrite drop_0; lia.
Qed.

End Scans.

(** The scan of `orders/` in the sample bucket: two rows, one corrupt
    object logged. *)
Lemma getS3Data_returns_the_valid_documents_witness :
  fault_free Samples.world
  /\ count_valid Reference.runtime "orders/" (objects Samples.world) = 2
  /\ count_corrupt Reference.runtime "orders/" (objects Samples.world) = 1
  /\ exists rows w',
       getS3Data Reference.runtime "orders/" Samples.world = (Return rows, w')
       /\ length rows = count_valid Reference.runtime "orders/" (objects Samples.world)
       /\ rows ≡ₚ valid_documents Reference.runtime "orders/" (objects Samples.world)
       /\ length (logged Samples.world w')
            = count_corrupt Reference.runtime "orders/" (objects Samples.world)
       /\ Forall (reports_corrupt Reference.runtime "orders/" (objects Samples.world))
                 (logged Samples.world w')
       /\ objects w' = objects Samples.world.
Proof.
  assert (Hff : fault_free Samples.world) by (intros n c; reflexivity).
  split; [exact Hff|].
  split; [vm_compute; reflexivity|].
  split; [vm_compute; reflexivity|].
  exact (getS3Data_returns_the_valid_documents Reference.runtime "orders/" Samples.world Hff).
Defined.

Lemma getS3DataWithKey_entries_carry_their_key_witness :
  getS3DataWithKey Reference.runtime "orders/" Samples.world =
    (Return Samples.keyed_orders,
     snd (getS3DataWithKey Reference.runtime "orders/" Samples.world))
  /\ Forall (listed_entry Reference.runtime "orders/" (objects Samples.world))
            Samples.keyed_orders.
Proof.
  assert (Hrun : getS3DataWithKey Reference.runtime "orders/" Samples.world =
                   (Return Samples.keyed_orders,
                    snd (getS3DataWithKey Reference.runtime "orders/" Samples.world)))
    by (vm_compute; reflexivity).
  split; [exact Hrun|].
  exact (getS3DataWithKey_entries_carry_their_key Reference.runtime "orders/" Samples.world
           _ _ Hrun).
Defined.

(** * Further properties of the class *)

(** ** Writes, deletes and what follows them *)

Lemma sent_since_app w w' cs : sent w' = (sent w ++ cs)%list -> sent_since w w' = cs.
Proof. intros H. unfold sent_since. by rewrite H, drop_app_length. Qed.

Section Writes.

Variable rt : Runtime.

Lemma put_ok k d w :
  faults w (length (sent w)) (PutObjectCommand k (JSON_stringify rt d)) = None ->
  put rt k d w =
    (Return tt, set_objects (<[k := JSON_stringify rt d]> (objects w))
                  (set_sent (sent w ++ [PutObjectCommand k (JSON_stringify rt d)]) w)).
Proof. intros H. unfold put, try_catch. by rewrite send_PutObject_ok. Qed.

Lemma delete_ok k w :
  faults w (length (sent w)) (DeleteObjectCommand k) = None ->
  delete_ k w =
    (Return tt, set_objects (delete k (objects w))
                  (set_sent (sent w ++ [DeleteObjectCommand k]) w)).
Proof. intros H. unfold delete_, try_catch. by rewrite send_DeleteObject_ok. Qed.

(** X1: a key that was deleted reads as null: delete(k) that the
    backend lets through, followed by get(k), returns null, whatever
    was stored under k and whatever the backend does to the fetch. *)
Theorem delete_then_get_is_null (k : string) (w : World) :
  faults w (length (sent w)) (DeleteObjectCommand k) = None ->
  fst ((delete_ k;;; get rt k) w) = Return JNull.
Proof.
  intros Hdel. unfold bind at 1. rewrite delete_ok by done.
  rewrite get_outcome. unfold fetch. simpl.
  destruct (faults w _ (GetObjectCommand k)); [done|].
  by rewrite lookup_delete_eq.
Qed.

(** X2: a put that the backend fails is logged in one error line that
    carries the error, and the same error is raised to the caller; the
    bucket is as it was. *)
Theorem put_failure_is_logged_and_raised (k : string) (d : json) (w : World) (e : JsError) :
  faults w (length (sent w)) (PutObjectCommand k (JSON_stringify rt d)) = Some e ->
  fst (put rt k d w) = Throw e
  /\ objects (snd (put rt k d w)) = objects w
  /\ logged w (snd (put rt k d w)) =
       [console_error_line
          [LStr ("Error putting data into S3 for key " +:+ k +:+ ":"); LErr e]].
Proof.
  intros Hput. unfold put, try_catch, send_PutObject, send. rewrite Hput. simpl.
  split; [done|split; [done|]]. by erewrite logged_app.
Qed.

(** X3: a delete that the backend fails is logged in one error line
    that carries the error, and the same error is raised to the caller;
    nothing is removed. *)
Theorem delete_failure_is_logged_and_raised (k : string) (w : World) (e : JsError) :
  faults w (length (sent w)) (DeleteObjectCommand k) = Some e ->
  fst (delete_ k w) = Throw e
  /\ objects (snd (delete_ k w)) = objects w
  /\ logged w (snd (delete_ k w)) =
       [console_error_line
          [LStr ("Error deleting data from S3 for key " +:+ k +:+ ":"); LErr e]].
Proof.
  intros Hdel. unfold delete_, try_catch, send_DeleteObject, send. rewrite Hdel. simpl.
  split; [done|split; [done|]]. by erewrite logged_app.
Qed.

(** X4: the last writer wins: two puts under one key and a get of it,
    on a backend that answers, return the second document (one that
    JSON carries faithfully), whatever the first one was. *)
Theorem put_put_get_returns_the_last (k : string) (d1 d2 : json) (w : World) :
  fault_free w ->
  JSON_parse rt (JSON_stringify rt d2) = Some d2 ->
  fst ((put rt k d1;;; put rt k d2;;; get rt k) w) = Return d2.
Proof.
  intros Hff Hjson. unfold bind at 1. rewrite put_ok by apply Hff.
  unfold bind at 1. rewrite put_ok by apply Hff.
  rewrite get_outcome. unfold fetch. simpl. rewrite Hff.
  by rewrite lookup_insert_eq, Hjson.
Qed.

(** X5: put(k, d) and delete(k) touch no key but k, whatever the backend
    does: every other key holds after the call what it held before, and
    the set of known tables is the same. *)
Theorem put_and_delete_leave_other_keys (k k' : string) (d : json) (w : World) :
  k' <> k ->
  objects (snd (put rt k d w)) !! k' = objects w !! k'
  /\ objects (snd (delete_ k w)) !! k' = objects w !! k'
  /\ this (snd (put rt k d w)) = this w
  /\ this (snd (delete_ k w)) = this w.
Proof.
  intros Hne.
  unfold put, delete_, try_catch, send_PutObject, send_DeleteObject, send.
  destruct (faults w (length (sent w)) (PutObjectCommand k (JSON_stringify rt d)));
    destruct (faults w (length (sent w)) (DeleteObjectCommand k)); simpl;
    rewrite ?lookup_insert_ne, ?lookup_delete_ne by done; done.
Qed.

End Writes.

Lemma delete_then_get_is_null_witness :
  is_Some (objects Samples.world !! "orders/1.json")
  /\ fst ((delete_ "orders/1.json";;; get Reference.runtime "orders/1.json") Samples.world)
     = Return JNull.
Proof.
  split; [vm_compute; eauto|].
  exact (delete_then_get_is_null Reference.runtime "orders/1.json" Samples.world eq_refl).
Defined.

Lemma put_failure_is_logged_and_raised_witness :
  fst (put Reference.runtime "orders/9.json" (Samples.order 9) Samples.frozen_world)
    = Throw Samples.AccessDenied
  /\ objects (snd (put Reference.runtime "orders/9.json" (Samples.order 9) Samples.frozen_world))
     = objects Samples.frozen_world
  /\ logged Samples.frozen_world
       (snd (put Reference.runtime "orders/9.json" (Samples.order 9) Samples.frozen_world)) =
       [console_error_line
          [LStr "Error putting data into S3 for key orders/9.json:";
           LErr Samples.AccessDenied]].
Proof.
  exact (put_failure_is_logged_and_raised Reference.runtime "orders/9.json" (Samples.order 9)
           Samples.frozen_world Samples.AccessDenied eq_refl).
Defined.

Lemma delete_failure_is_logged_and_raised_witness :
  fst (delete_ "orders/1.json" Samples.frozen_world) = Throw Samples.AccessDenied
  /\ objects (snd (delete_ "orders/1.json" Samples.frozen_world))
     = objects Samples.frozen_world
  /\ logged Samples.frozen_world (snd (delete_ "orders/1.json" Samples.frozen_world)) =
       [console_error_line
          [LStr "Error deleting data from S3 for key orders/1.json:";
           LErr Samples.AccessDenied]].
Proof.
  exact (delete_failure_is_logged_and_raised "orders/1.json"
           Samples.frozen_world Samples.AccessDenied eq_refl).
Defined.

Lemma healthy_fault_free objs : fault_free (Samples.fresh objs Samples.healthy).
Proof. intros n c. reflexivity. Defined.

Lemma put_put_get_returns_the_last_witness :
  fst ((put Reference.runtime "orders/1.json" JNull;;;
        put Reference.runtime "orders/1.json" (Samples.order 8);;;
        get Reference.runtime "orders/1.json") Samples.world)
  = Return (Samples.order 8).
Proof.
  apply (put_put_get_returns_the_last Reference.runtime "orders/1.json" JNull
           (Samples.order 8) Samples.world (healthy_fault_free _)).
  vm_compute; reflexivity.
Defined.

Lemma put_and_delete_leave_other_keys_witness :
  objects (snd (put Reference.runtime "orders/1.json" JNull Samples.world)) !! "orders/2.json"
    = objects Samples.world !! "orders/2.json"
  /\ objects (snd (delete_ "orders/1.json" Samples.world)) !! "orders/2.json"
     = objects Samples.world !! "orders/2.json"
  /\ this (snd (put Reference.runtime "orders/1.json" JNull Samples.world)) = this Samples.world
  /\ this (snd (delete_ "orders/1.json" Samples.world)) = this Samples.world.
Proof.
  apply (put_and_delete_leave_other_keys Reference.runtime "orders/1.json" "orders/2.json"
           JNull Samples.world).
  discriminate.
Defined.

(** ** More on table initialisation *)

Section MoreTables.

Variable rt : Runtime.

(** The whole of a call for a table that is not in the cache. *)
Lemma ensureTable_unknown_run (tableName : string) (w : World) :
  tableName ∉ tables (this w) ->
  ensureTable rt tableName w =
    let key := metadata_key tableName in
    let body := JSON_stringify rt (table_sentinel tableName (now w)) in
    let w1 := set_sent (sent w ++ [GetObjectCommand key]) w in
    match fetch w key with
    | inr _ => (Return tt, set_tables ({[tableName]} ∪ tables (this w)) w1)
    | inl _ =>
        let w2 := set_sent (sent w1 ++ [PutObjectCommand key body]) w1 in
        match faults w (S (length (sent w))) (PutObjectCommand key body) with
        | None =>
            (Return tt,
             set_tables ({[tableName]} ∪ tables (this w))
               (set_objects (<[key := body]> (objects w)) w2))
        | Some e' =>
            (Throw e',
             set_console
               (console w ++
                  [console_error_line
                     [LStr ("Error ensuring table " +:+ tableName +:+ ":"); LErr e']])
               w2)
        end
    end.
Proof.
  intros Hnot. unfold ensureTable, bind at 1, tables_has.
  rewrite bool_decide_eq_false_2 by done.
  unfold try_catch, bind. rewrite send_GetObject_fetch. cbv zeta.
  destruct (fetch w (metadata_key tableName)) as [e|body]; [|done].
  unfold Date_toISOString, send_PutObject, send, table_sentinel. simpl.
  rewrite length_app, Nat.add_1_r.
  by destruct (faults w (S (length (sent w))) _).
Qed.

(** X6: when the fetch of the sentinel fails and the write that follows
    is failed by the backend too, ensureTable logs the error of the
    write in one line and raises it; the table is not marked known (a
    later call tries again) and the bucket is as it was. *)
Theorem ensureTable_failed_write_is_raised
    (tableName : string) (w : World) (e e' : JsError) :
  tableName ∉ tables (this w) ->
  fetch w (metadata_key tableName) = inl e ->
  faults w (S (length (sent w)))
    (PutObjectCommand (metadata_key tableName)
       (JSON_stringify rt (table_sentinel tableName (now w)))) = Some e' ->
  fst (ensureTable rt tableName w) = Throw e'
  /\ tables (this (snd (ensureTable rt tableName w))) = tables (this w)
  /\ objects (snd (ensureTable rt tableName w)) = objects w
  /\ logged w (snd (ensureTable rt tableName w)) =
       [console_error_line [LStr ("Error ensuring table " +:+ tableName +:+ ":"); LErr e']].
Proof.
  intros Hnot Hfetch Hput. rewrite ensureTable_unknown_run by done. cbv zeta.
  rewrite Hfetch, Hput. simpl.
  split; [done|split; [done|split; [done|]]]. by erewrite logged_app.
Qed.

(** X7: whatever the backend does, ensureTable settles, and the cache
    stays honest: after a return the table is in `this.tables`, after a
    raised error `this.tables` is what it was; no table is ever dropped
    from it, and no key of the bucket other than the table's sentinel
    is touched. *)
Theorem ensureTable_cache_and_frame (tableName : string) (w : World) :
  match fst (ensureTable rt tableName w) with
  | Return _ => tableName ∈ tables (this (snd (ensureTable rt tableName w)))
  | Throw _ => tables (this (snd (ensureTable rt tableName w))) = tables (this w)
  | Pending => False
  end
  /\ tables (this w) ⊆ tables (this (snd (ensureTable rt tableName w)))
  /\ (forall k, k <> metadata_key tableName ->
        objects (snd (ensureTable rt tableName w)) !! k = objects w !! k).
Proof.
  destruct (decide (tableName ∈ tables (this w))) as [Hin|Hnot].
  - rewrite ensureTable_cached by done. simpl. done.
  - rewrite ensureTable_unknown_run by done. cbv zeta.
    destruct (fetch w (metadata_key tableName)) as [e|body];
      [destruct (faults w (S (length (sent w))) _)|]; simpl;
      (split; [set_solver|split; [set_solver|]]);
      intros k Hk; rewrite ?lookup_insert_ne by done; done.
Qed.

(** X8: a sentinel that is there and can be read is never written
    again: ensureTable sends the one GetObject, leaves the bucket (and
    so the `created` stamp of the sentinel) as it was, logs nothing and
    marks the table known. *)
Theorem ensureTable_keeps_existing_sentinel (tableName body : string) (w : World) :
  tableName ∉ tables (this w) ->
  fetch w (metadata_key tableName) = inr body ->
  fst (ensureTable rt tableName w) = Return tt
  /\ objects (snd (ensureTable rt tableName w)) = objects w
  /\ sent_since w (snd (ensureTable rt tableName w))
       = [GetObjectCommand (metadata_key tableName)]
  /\ logged w (snd (ensureTable rt tableName w)) = []
  /\ tableName ∈ tables (this (snd (ensureTable rt tableName w))).
Proof.
  intros Hnot Hfetch. rewrite ensureTable_unknown_run by done. cbv zeta.
  rewrite Hfetch. simpl.
  split; [done|split; [done|]].
  split; [by erewrite sent_since_app|].
  split; [|set_solver]. unfold logged. simpl. apply drop_all.
Qed.

End MoreTables.

Lemma ensureTable_failed_write_is_raised_witness :
  fst (ensureTable Reference.runtime "orders" Samples.frozen_world) = Throw Samples.AccessDenied
  /\ tables (this (snd (ensureTable Reference.runtime "orders" Samples.frozen_world)))
     = tables (this Samples.frozen_world)
  /\ objects (snd (ensureTable Reference.runtime "orders" Samples.frozen_world))
     = objects Samples.frozen_world
  /\ logged Samples.frozen_world (snd (ensureTable Reference.runtime "orders" Samples.frozen_world))
     = [console_error_line [LStr "Error ensuring table orders:"; LErr Samples.AccessDenied]].
Proof.
  exact (ensureTable_failed_write_is_raised Reference.runtime "orders" Samples.frozen_world
           NoSuchKey Samples.AccessDenied (not_elem_of_empty _) eq_refl eq_refl).
Defined.

Lemma ensureTable_keeps_existing_sentinel_witness :
  fst (ensureTable Reference.runtime "invoices" Samples.world) = Return tt
  /\ objects (snd (ensureTable Reference.runtime "invoices" Samples.world))
     = objects Samples.world
  /\ sent_since Samples.world (snd (ensureTable Reference.runtime "invoices" Samples.world))
     = [GetObjectCommand "invoices/_metadata.json"]
  /\ logged Samples.world (snd (ensureTable Reference.runtime "invoices" Samples.world)) = []
  /\ "invoices" ∈ tables (this (snd (ensureTable Reference.runtime "invoices" Samples.world))).
Proof.
  exact (ensureTable_keeps_existing_sentinel Reference.runtime "invoices"
           (Reference.stringify Samples.invoices_sentinel) Samples.world
           (not_elem_of_empty _) eq_refl).
Defined.

(** ** More on prefix scans *)

Section MoreScans.

Variable rt : Runtime.

Lemma after_item_sent w k :
  sent (after_item rt w k) = (sent w ++ [GetObjectCommand k])%list
  /\ this (after_item rt w k) = this w.
Proof. unfold after_item. by destruct (item_outcome rt w k). Qed.

Lemma after_items_sent w keys :
  sent (after_items rt w keys) = (sent w ++ map GetObjectCommand keys)%list
  /\ this (after_items rt w keys) = this w.
Proof.
  revert w. induction keys as [|k keys IH]; intros w; simpl.
  - by rewrite app_nil_r.
  - destruct (IH (after_item rt w k)) as [-> ->].
    destruct (after_item_sent w k) as [-> ->]. by rewrite <- app_assoc.
Qed.

(** The loop body answers for its object: a row, or an error line. *)
Lemma after_item_accounts mk w rows k :
  exists ls,
    console (after_item rt w k) = (console w ++ ls)%list
    /\ Forall (fun l => is_error_line l = true) ls
    /\ length (rows_after_item rt mk w rows k) + length ls = length rows + 1.
Proof.
  unfold after_item, rows_after_item.
  destruct (item_outcome rt w k) as [e|d].
  - exists [reading_error k e]. simpl.
    split; [done|split; [by repeat constructor|lia]].
  - exists []. simpl. rewrite app_nil_r, length_app. simpl.
    split; [done|split; [done|lia]].
Qed.

Lemma after_items_account mk w rows keys :
  exists ls,
    console (after_items rt w keys) = (console w ++ ls)%list
    /\ Forall (fun l => is_error_line l = true) ls
    /\ length (rows_after_items rt mk w rows keys) + length ls = length rows + length keys.
Proof.
  revert w rows. induction keys as [|k keys IH]; intros w rows.
  - exists []. simpl. rewrite app_nil_r. split; [done|split; [done|lia]].
  - cbn [after_items rows_after_items].
    destruct (after_item_accounts mk w rows k) as (ls1 & Hc1 & Hf1 & Hn1).
    destruct (IH (after_item rt w k) (rows_after_item rt mk w rows k))
      as (ls2 & Hc2 & Hf2 & Hn2).
    exists (ls1 ++ ls2)%list. rewrite Hc2, Hc1, <- app_assoc, length_app.
    split; [done|]. split; [by apply Forall_app|]. simpl. lia.
Qed.

Lemma pages_account mk fuel prefix token rows w :
  listing_answered w ->
  length (drop (default 0 token) (list_keys (objects w) prefix)) < fuel ->
  exists rows' w' ls,
    for_await_pages fuel prefix 1000 token (scan_page rt mk) rows w = (Return rows', w')
    /\ console w' = (console w ++ ls)%list
    /\ Forall (fun l => is_error_line l = true) ls
    /\ length rows' + length ls =
         length rows + length (drop (default 0 token) (list_keys (objects w) prefix)).
Proof.
  revert token rows w. induction fuel as [|fuel IH]; intros token rows w Hla Hfuel; [lia|].
  rewrite (page_step rt) by done. cbv zeta.
  set (rest := drop (default 0 token) (list_keys (objects w) prefix)) in *.
  set (w1 := set_sent (sent w ++ [ListObjectsV2Command prefix 1000 token]) w).
  destruct (after_items_account mk w1 rows (take 1000 rest)) as (ls1 & Hc1 & Hf1 & Hn1).
  change (console w1) with (console w) in Hc1.
  destruct (drop 1000 rest) as [|k more] eqn:Hmore.
  - assert (Hall : take 1000 rest = rest).
    { rewrite <- (take_drop 1000 rest) at 2. by rewrite Hmore, app_nil_r. }
    rewrite Hall in *. by eexists _, _, ls1.
  - assert (Hskip : drop (default 0 (Some (default 0 token + 1000)))
                       (list_keys (objects w) prefix) = drop 1000 rest).
    { unfold rest. rewrite drop_drop. reflexivity. }
    assert (Hlen : length (drop 1000 rest) = length rest - 1000) by apply length_drop.
    assert (Htake : length (take 1000 rest) + length (drop 1000 rest) = length rest).
    { rewrite <- length_app. by rewrite take_drop. }
    destruct (IH (Some (default 0 token + 1000))
                (rows_after_items rt mk w1 rows (take 1000 rest))
                (after_items rt w1 (take 1000 rest)))
      as (rows' & w' & ls2 & Hrun & Hc2 & Hf2 & Hn2).
    + intros n p m t. rewrite after_items_faults. apply Hla.
    + rewrite after_items_objects. change (objects w1) with (objects w).
      rewrite Hskip. rewrite Hmore in Hlen. rewrite Hmore. simpl in *. lia.
    + revert Hrun Hc2 Hn2. rewrite after_items_objects.
      change (objects w1) with (objects w). rewrite Hskip, Hc1.
      intros Hrun Hc2 Hn2.
      exists rows', w', (ls1 ++ ls2)%list. rewrite Hrun, Hc2, <- app_assoc, length_app.
      split; [done|]. split; [done|]. split; [by apply Forall_app|]. lia.
Qed.

Lemma length_filter_fst (prefix : string) (l : list (string * string)) :
  length (filter (fun k => String.prefix prefix k = true) l.*1) =
  length (filter (fun kb : string * string => String.prefix prefix kb.1 = true) l).
Proof.
  induction l as [|[k b] l IH]; [done|].
  rewrite fmap_cons, !filter_cons. cbn [fst].
  destruct (decide (String.prefix prefix k = true)); simpl; by rewrite ?IH.
Qed.

Lemma length_list_keys prefix objs :
  length (list_keys objs prefix) = count_under prefix objs.
Proof.
  unfold list_keys, count_under.
  by rewrite length_filter_fst, size_filter_map_to_list.
Qed.

(** X9: a scan whose listings are answered returns, however many of the
    single fetches fail or come back with a body that is not JSON, and
    it accounts for every object under the prefix: each one is either a
    row of the result or one logged error line, so rows and lines add
    up to the number of objects under the prefix. *)
Theorem getS3Data_accounts_for_every_object (prefix : string) (w : World) :
  listing_answered w ->
  exists rows w',
    getS3Data rt prefix w = (Return rows, w')
    /\ Forall (fun l => is_error_line l = true) (logged w w')
    /\ length rows + length (logged w w') = count_under prefix (objects w).
Proof.
  intros Hla. rewrite getS3Data_unfold.
  destruct (pages_account bare_row (pages_fuel w prefix) prefix None [] w Hla)
    as (rows & w' & ls & Hrun & Hc & Hf & Hn).
  { unfold pages_fuel. change (default 0 None) with 0. rewrite drop_0. lia. }
  change (default 0 None) with 0 in Hn. rewrite drop_0, length_list_keys in Hn.
  exists rows, w'. rewrite (logged_app w w' ls Hc). done.
Qed.

(** X10: when the backend fails the first listing of a scan (the
    ListObjectsV2 without a continuation token, the first command the
    scan sends), the error is not caught: both scans raise it to the
    caller, with nothing logged and no row returned. *)
Theorem scans_raise_a_failed_listing (prefix : string) (w : World) (e : JsError) :
  faults w (length (sent w)) (ListObjectsV2Command prefix 1000 None) = Some e ->
  fst (getS3Data rt prefix w) = Throw e
  /\ fst (getS3DataWithKey rt prefix w) = Throw e
  /\ logged w (snd (getS3Data rt prefix w)) = []
  /\ logged w (snd (getS3DataWithKey rt prefix w)) = [].
Proof.
  intros Hlist. rewrite getS3Data_unfold, getS3DataWithKey_unfold.
  unfold pages_fuel. cbn [for_await_pages].
  unfold bind, send_ListObjectsV2, send. rewrite Hlist. simpl.
  unfold logged. simpl. by rewrite drop_all.
Qed.

(** One turn of the page loop, whatever the backend does. *)
Lemma page_turn mk fuel prefix token rows w :
  for_await_pages (S fuel) prefix 1000 token (scan_page rt mk) rows w =
    let w1 := set_sent (sent w ++ [ListObjectsV2Command prefix 1000 token]) w in
    match faults w (length (sent w)) (ListObjectsV2Command prefix 1000 token) with
    | Some e => (Throw e, w1)
    | None =>
        let page := list_page (objects w) prefix 1000 (default 0 token) in
        let keys := match Contents page with Some c => map Key c | None => [] end in
        match NextContinuationToken page with
        | Some t =>
            for_await_pages fuel prefix 1000 (Some t) (scan_page rt mk)
              (rows_after_items rt mk w1 rows keys) (after_items rt w1 keys)
        | None => (Return (rows_after_items rt mk w1 rows keys), after_items rt w1 keys)
        end
    end.
Proof.
  cbn [for_await_pages]. unfold bind at 1, send_ListObjectsV2, send. cbv zeta.
  destruct (faults w (length (sent w)) (ListObjectsV2Command prefix 1000 token)); [done|].
  unfold bind, scan_page.
  destruct (Contents (list_page (objects w) prefix 1000 (default 0 token))) as [contents|].
  - rewrite for_of_read_items.
    by destruct (NextContinuationToken (list_page (objects w) prefix 1000 (default 0 token))).
  - unfold ret. cbn [rows_after_items after_items].
    by destruct (NextContinuationToken (list_page (objects w) prefix 1000 (default 0 token))).
Qed.

Lemma pages_only_read mk fuel prefix token rows w :
  objects (snd (for_await_pages fuel prefix 1000 token (scan_page rt mk) rows w)) = objects w
  /\ this (snd (for_await_pages fuel prefix 1000 token (scan_page rt mk) rows w)) = this w
  /\ exists cs,
       sent (snd (for_await_pages fuel prefix 1000 token (scan_page rt mk) rows w))
         = (sent w ++ cs)%list
       /\ Forall (fun c => is_read c = true) cs.
Proof.
  revert token rows w. induction fuel as [|fuel IH]; intros token rows w.
  - simpl. split; [done|split; [done|]]. exists []. by rewrite app_nil_r.
  - rewrite page_turn. cbv zeta.
    destruct (faults w (length (sent w)) (ListObjectsV2Command prefix 1000 token)).
    { simpl. split; [done|split; [done|]]. eexists. split; [reflexivity|]. by constructor. }
    set (w1 := set_sent (sent w ++ [ListObjectsV2Command prefix 1000 token]) w).
    generalize (match Contents (list_page (objects w) prefix 1000 (default 0 token)) with
                | Some c => map Key c
                | None => []
                end).
    intros keys.
    assert (Hw2 : objects (after_items rt w1 keys) = objects w
                  /\ this (after_items rt w1 keys) = this w
                  /\ sent (after_items rt w1 keys) =
                       (sent w ++ ListObjectsV2Command prefix 1000 token
                          :: map GetObjectCommand keys)%list).
    { rewrite after_items_objects. destruct (after_items_sent w1 keys) as [-> ->].
      simpl. by rewrite <- app_assoc. }
    destruct Hw2 as (Ho & Ht & Hs).
    assert (Hreads : Forall (fun c => is_read c = true)
                       (ListObjectsV2Command prefix 1000 token :: map GetObjectCommand keys)).
    { constructor; [done|]. apply Forall_forall. intros c Hc.
      apply list_elem_of_In, in_map_iff in Hc as (k & <- & _). done. }
    destruct (NextContinuationToken (list_page (objects w) prefix 1000 (default 0 token)))
      as [t|].
    + destruct (IH (Some t) (rows_after_items rt mk w1 rows keys) (after_items rt w1 keys))
        as (Ho' & Ht' & cs & Hs' & Hcs).
      rewrite Ho', Ht', Hs', Ho, Ht, Hs.
      split; [done|split; [done|]]. eexists. rewrite <- app_assoc.
      split; [reflexivity|]. by apply Forall_app.
    + simpl. rewrite Ho, Ht, Hs. split; [done|split; [done|]]. by eexists.
Qed.

(** X11: the scans only read: whatever the backend does, after
    getS3Data or getS3DataWithKey the bucket holds what it held, the
    instance (bucket name, client, known tables) is unchanged, and every
    command sent was a ListObjectsV2 or a GetObject. *)
Theorem scans_only_read (prefix : string) (w : World) :
  (objects (snd (getS3Data rt prefix w)) = objects w
   /\ this (snd (getS3Data rt prefix w)) = this w
   /\ Forall (fun c => is_read c = true) (sent_since w (snd (getS3Data rt prefix w))))
  /\ (objects (snd (getS3DataWithKey rt prefix w)) = objects w
      /\ this (snd (getS3DataWithKey rt prefix w)) = this w
      /\ Forall (fun c => is_read c = true)
           (sent_since w (snd (getS3DataWithKey rt prefix w)))).
Proof.
  rewrite getS3Data_unfold, getS3DataWithKey_unfold.
  split.
  - destruct (pages_only_read bare_row (pages_fuel w prefix) prefix None [] w)
      as (Ho & Ht & cs & Hs & Hcs).
    split; [done|split; [done|]]. by rewrite (sent_since_app _ _ _ Hs).
  - destruct (pages_only_read keyed_row (pages_fuel w prefix) prefix None [] w)
      as (Ho & Ht & cs & Hs & Hcs).
    split; [done|split; [done|]]. by rewrite (sent_since_app _ _ _ Hs).
Qed.

End MoreScans.

(** Every fetch refused: no row, one line for each of the three orders. *)
Lemma getS3Data_accounts_for_every_object_witness :
  listing_answered Samples.denied_world
  /\ count_under "orders/" (objects Samples.denied_world) = 3
  /\ fst (getS3Data Reference.runtime "orders/" Samples.denied_world) = Return []
  /\ exists rows w',
       getS3Data Reference.runtime "orders/" Samples.denied_world = (Return rows, w')
       /\ Forall (fun l => is_error_line l = true) (logged Samples.denied_world w')
       /\ length rows + length (logged Samples.denied_world w')
          = count_under "orders/" (objects Samples.denied_world).
Proof.
  assert (Hla : listing_answered Samples.denied_world) by (intros n p m t; reflexivity).
  split; [exact Hla|].
  split; [vm_compute; reflexivity|].
  split; [vm_compute; reflexivity|].
  exact (getS3Data_accounts_for_every_object Reference.runtime "orders/"
           Samples.denied_world Hla).
Defined.

Lemma scans_raise_a_failed_listing_witness :
  fst (getS3Data Reference.runtime "orders/" Samples.unlisted_world)
    = Throw Samples.AccessDenied
  /\ fst (getS3DataWithKey Reference.runtime "orders/" Samples.unlisted_world)
     = Throw Samples.AccessDenied
  /\ logged Samples.unlisted_world
       (snd (getS3Data Reference.runtime "orders/" Samples.unlisted_world)) = []
  /\ logged Samples.unlisted_world
       (snd (getS3DataWithKey Reference.runtime "orders/" Samples.unlisted_world)) = [].
Proof.
  exact (scans_raise_a_failed_listing Reference.runtime "orders/" Samples.unlisted_world
           Samples.AccessDenied eq_refl).
Defined.

(** ** More on pool credentials *)

Lemma env_or_nonempty (rt : Runtime) (var dflt : string) :
  dflt <> "" -> env_or rt var dflt <> "".
Proof.
  intros Hd. unfold env_or. destruct (process_env rt var) as [v|]; [|done].
  destruct (String.eqb v "") eqn:Hv; [done|]. by apply String.eqb_neq in Hv.
Qed.

Lemma truthy_nonempty (s : string) : s <> "" -> truthy (JStr s) = true.
Proof. intros Hs. simpl. apply negb_true_iff. by apply String.eqb_neq. Qed.

Lemma js_or_truthy (a : jsval) (b : json) : truthy b = true -> truthy (js_or a b) = true.
Proof.
  intros Hb. destruct a as [j|]; simpl; [|done]. by destruct (truthy j) eqn:Hj.
Qed.

Section MorePools.

Variable rt : Runtime.

(** X12: for a profile that names a pool, getPoolCredentials never
    raises, whatever the backend answers and whatever the record holds:
    it returns null or a record `{bucketName, accessKey, secretKey}`
    whose three values are all truthy.  It sends the one GetObject for
    `pools/<profileId>.json` and changes neither the bucket nor the
    instance. *)
Theorem getPoolCredentials_pool_never_raises (profileId : option string) (w : World) :
  names_pool profileId ->
  exists v w',
    getPoolCredentials rt profileId w = (Return v, w')
    /\ null_or_complete v
    /\ objects w' = objects w
    /\ this w' = this w
    /\ sent w' = (sent w ++ [GetObjectCommand (pool_key profileId)])%list.
Proof.
  intros Hpool. unfold getPoolCredentials.
  rewrite (names_pool_branch _ Hpool).
  unfold try_catch, bind, console_log. rewrite send_GetObject_fetch.
  change (fetch (set_console _ w) (pool_key profileId)) with (fetch w (pool_key profileId)).
  destruct (fetch w (pool_key profileId)) as [e|body].
  { destruct (String.eqb (name e) "NoSuchKey"); simpl;
      eexists _, _; (split; [reflexivity|]); simpl; (split; [by left|done]). }
  unfold streamToString, parse, ret. simpl.
  destruct (JSON_parse rt body) as [poolData|]; simpl;
    [|eexists _, _; (split; [reflexivity|]); simpl; (split; [by left|done])].
  unfold or_else, missing, bind, eval, ret.
  destruct poolData as [|[]|n|s|items|props]; simpl;
    try (eexists _, _; (split; [reflexivity|]); simpl; (split; [by left|done])).
  - destruct (n =? 0)%Z; simpl;
      eexists _, _; (split; [reflexivity|]); simpl; (split; [by left|done]).
  - destruct (String.eqb s ""); simpl;
      eexists _, _; (split; [reflexivity|]); simpl; (split; [by left|done]).
  - destruct (lookup_prop "bucketName" props) as [b|]; simpl;
      [|eexists _, _; (split; [reflexivity|]); simpl; (split; [by left|done])].
    destruct (truthy b) eqn:Hb; simpl;
      [|eexists _, _; (split; [reflexivity|]); simpl; (split; [by left|done])].
    destruct (lookup_prop "accessKey" props) as [a|]; simpl;
      [|eexists _, _; (split; [reflexivity|]); simpl; (split; [by left|done])].
    destruct (truthy a) eqn:Ha; simpl;
      [|eexists _, _; (split; [reflexivity|]); simpl; (split; [by left|done])].
    destruct (lookup_prop "secretKey" props) as [s|]; simpl;
      [|eexists _, _; (split; [reflexivity|]); simpl; (split; [by left|done])].
    destruct (truthy s) eqn:Hs; simpl;
      [|eexists _, _; (split; [reflexivity|]); simpl; (split; [by left|done])].
    eexists _, _. split; [reflexivity|]. simpl. split; [|done].
    right. by exists b, a, s.
Qed.

(** X13: the keys of the default branch are never empty: for an absent
    or `default` profile (and a client that carries a credentials
    value) the record returned is `{bucketName, accessKey, secretKey}`
    with the instance's bucket name and an accessKey and a secretKey
    that are truthy,
    because each falls back to a module constant and a module constant
    is `process.env.X || 'a default'`, never the empty string. *)
Theorem getPoolCredentials_default_keys_are_truthy (profileId : option string) (w : World) :
  absent profileId = true \/ profileId = Some "default" ->
  exposes_credentials w ->
  exists a s,
    getPoolCredentials rt profileId w =
      (Return (JObj [("bucketName", JStr (bucket (this w)));
                     ("accessKey", a); ("secretKey", s)]), w)
    /\ truthy a = true
    /\ truthy s = true.
Proof.
  intros Hdef Hcred. unfold getPoolCredentials.
  rewrite (default_branch _ Hdef).
  unfold exposes_credentials in Hcred. unfold bind, eval, ret.
  assert (Ha : truthy (JStr (s3AccessKeyDB rt)) = true)
    by (apply truthy_nonempty, env_or_nonempty; discriminate).
  assert (Hs : truthy (JStr (s3SecretKeyDB rt)) = true)
    by (apply truthy_nonempty, env_or_nonempty; discriminate).
  destruct (credentials (this w)) as [[| | | | |props]|]; simpl in Hcred; try done;
    simpl; eexists _, _; (split; [reflexivity|]);
    split; first [done | by apply js_or_truthy].
Qed.

End MorePools.

(** The complete record of `pools/acme.json` on a backend that
    answers, and the same pool on a backend that refuses the fetch. *)
Lemma getPoolCredentials_pool_never_raises_witness :
  fst (getPoolCredentials Reference.runtime (Some "acme") Samples.world)
    = Return (JObj [("bucketName", JStr "acme-media"); ("accessKey", JStr "AKIAACME");
                    ("secretKey", JStr "s3cr3t")])
  /\ fst (getPoolCredentials Reference.runtime (Some "acme") Samples.denied_world)
     = Return JNull
  /\ (exists v w',
        getPoolCredentials Reference.runtime (Some "acme") Samples.world = (Return v, w')
        /\ null_or_complete v
        /\ objects w' = objects Samples.world
        /\ this w' = this Samples.world
        /\ sent w' = (sent Samples.world ++ [GetObjectCommand "pools/acme.json"])%list)
  /\ (exists v w',
        getPoolCredentials Reference.runtime (Some "acme") Samples.denied_world
          = (Return v, w')
        /\ null_or_complete v
        /\ objects w' = objects Samples.denied_world
        /\ this w' = this Samples.denied_world
        /\ sent w' = (sent Samples.denied_world ++ [GetObjectCommand "pools/acme.json"])%list).
Proof.
  split; [vm_compute; reflexivity|]. split; [vm_compute; reflexivity|]. split.
  - exact (getPoolCredentials_pool_never_raises Reference.runtime (Some "acme")
             Samples.world (names_pool_sample "acme" eq_refl eq_refl)).
  - exact (getPoolCredentials_pool_never_raises Reference.runtime (Some "acme")
             Samples.denied_world (names_pool_sample "acme" eq_refl eq_refl)).
Defined.

Lemma getPoolCredentials_default_keys_are_truthy_witness :
  exists a s,
    getPoolCredentials Reference.runtime None Samples.world =
      (Return (JObj [("bucketName", JStr "media"); ("accessKey", a); ("secretKey", s)]),
       Samples.world)
    /\ truthy a = true
    /\ truthy s = true.
Proof.
  exact (getPoolCredentials_default_keys_are_truthy Reference.runtime None Samples.world
           (or_introl eq_refl) I).
Defined.

(** ** Writes, deletes and table initialisation seen by the scans *)

Lemma elem_of_list_keys (objs : gmap string string) (prefix k : string) :
  k ∈ list_keys objs prefix <-> String.prefix prefix k = true /\ is_Some (objs !! k).
Proof.
  unfold list_keys. rewrite list_elem_of_filter, list_elem_of_fmap. split.
  - intros [Hp ([k' b] & -> & Hin)]. apply elem_of_map_to_list in Hin. eauto.
  - intros [Hp [b Hb]]. split; [done|]. exists (k, b). split; [done|].
    by apply elem_of_map_to_list.
Qed.

Lemma prefix_append (a b c : string) :
  String.prefix (a +:+ b) (a +:+ c) = String.prefix b c.
Proof.
  induction a as [|x a IH]; [done|]. simpl.
  destruct (Ascii.ascii_dec x x); [apply IH|done].
Qed.

Section Composition.

Variable rt : Runtime.

(** On a backend that answers, an object under the prefix whose body
    parses is among the rows of both scans: as its document, and as the
    entry `{key, data}` of its key and its document. *)
Lemma scans_find (prefix k body : string) (d : json) (w : World) :
  fault_free w ->
  objects w !! k = Some body ->
  JSON_parse rt body = Some d ->
  String.prefix prefix k = true ->
  (exists rows w', getS3Data rt prefix w = (Return rows, w') /\ d ∈ rows)
  /\ (exists rows w', getS3DataWithKey rt prefix w = (Return rows, w')
                      /\ JObj [("key", JStr k); ("data", d)] ∈ rows).
Proof.
  intros Hff Hk Hd Hp.
  assert (Hin : k ∈ list_keys (objects w) prefix) by (apply elem_of_list_keys; eauto).
  assert (Hparsed : parsed_at rt (objects w) k = Some d).
  { unfold parsed_at. rewrite Hk. exact Hd. }
  assert (Hfuel : length (drop (default 0 None) (list_keys (objects w) prefix))
                  < pages_fuel w prefix).
  { unfold pages_fuel. change (default 0 None) with 0. rewrite drop_0. lia. }
  rewrite getS3Data_unfold, getS3DataWithKey_unfold. split.
  - destruct (pages_fault_free rt bare_row _ prefix None [] w Hff Hfuel) as (w' & -> & _).
    eexists _, _. split; [reflexivity|].
    change (default 0 None) with 0. rewrite drop_0, app_nil_l.
    apply list_elem_of_omap. exists k. split; [done|]. by rewrite Hparsed.
  - destruct (pages_fault_free rt keyed_row _ prefix None [] w Hff Hfuel) as (w' & -> & _).
    eexists _, _. split; [reflexivity|].
    change (default 0 None) with 0. rewrite drop_0, app_nil_l.
    apply list_elem_of_omap. exists k. split; [done|]. by rewrite Hparsed.
Qed.

(** X14: what is put is found by the scans: on a backend that answers,
    after put(k, d) of a document that JSON carries faithfully, a scan
    of any prefix of k returns d among its rows, and the scan with keys
    returns the entry `{key: k, data: d}`. *)
Theorem put_then_scans_find_it (prefix k : string) (d : json) (w : World) :
  fault_free w ->
  JSON_parse rt (JSON_stringify rt d) = Some d ->
  String.prefix prefix k = true ->
  (exists rows w', (put rt k d;;; getS3Data rt prefix) w = (Return rows, w') /\ d ∈ rows)
  /\ (exists rows w', (put rt k d;;; getS3DataWithKey rt prefix) w = (Return rows, w')
                      /\ JObj [("key", JStr k); ("data", d)] ∈ rows).
Proof.
  intros Hff Hjson Hp. unfold bind. rewrite put_ok by apply Hff.
  apply (scans_find prefix k (JSON_stringify rt d)); try done.
  simpl. apply lookup_insert_eq.
Qed.

(** X15: what is deleted is gone from the scans: after a delete(k) that
    the backend lets through, no entry of getS3DataWithKey carries the
    key k, whatever the prefix and whatever the backend does next. *)
Theorem delete_then_scan_omits_it
    (prefix k : string) (w : World) (rows : list json) (w' : World) :
  faults w (length (sent w)) (DeleteObjectCommand k) = None ->
  (delete_ k;;; getS3DataWithKey rt prefix) w = (Return rows, w') ->
  forall d, keyed_row k d ∉ rows.
Proof.
  intros Hdel. unfold bind. rewrite delete_ok by done.
  rewrite getS3DataWithKey_unfold. intros Hrun d Hin.
  eapply (pages_listed rt _ prefix _ None [] _ rows w') in Hrun; [|reflexivity|done].
  rewrite Forall_forall in Hrun.
  destruct (Hrun _ Hin) as (k0 & body & d0 & Heq & _ & Hlook & _).
  injection Heq as <- _. simpl in Hlook. by rewrite lookup_delete_eq in Hlook.
Qed.

(** X16: the sentinel of a table is a row of the table: on a backend
    that answers, after ensureTable has created the sentinel of a new
    table, getS3Data on the table's prefix `<tableName>/` returns the
    sentinel document `{tableName, created}` among its rows (the
    sentinel being a document that JSON carries faithfully). *)
Theorem ensureTable_then_scan_returns_the_sentinel (tableName : string) (w : World) :
  fault_free w ->
  tableName ∉ tables (this w) ->
  objects w !! metadata_key tableName = None ->
  JSON_parse rt (JSON_stringify rt (table_sentinel tableName (now w)))
    = Some (table_sentinel tableName (now w)) ->
  exists rows w',
    (ensureTable rt tableName;;; getS3Data rt (tableName +:+ "/")) w = (Return rows, w')
    /\ table_sentinel tableName (now w) ∈ rows.
Proof.
  intros Hff Hnot Habsent Hjson. unfold bind.
  rewrite ensureTable_unknown_run by done. cbv zeta.
  unfold fetch. rewrite !Hff, Habsent.
  apply (scans_find (tableName +:+ "/") (metadata_key tableName)
           (JSON_stringify rt (table_sentinel tableName (now w)))); try done.
  - simpl. apply lookup_insert_eq.
  - unfold metadata_key. apply prefix_append.
Qed.

End Composition.

Lemma put_then_scans_find_it_witness :
  (exists rows w',
     (put Reference.runtime "orders/9.json" (Samples.order 9);;;
      getS3Data Reference.runtime "orders/") Samples.world = (Return rows, w')
     /\ Samples.order 9 ∈ rows)
  /\ (exists rows w',
        (put Reference.runtime "orders/9.json" (Samples.order 9);;;
         getS3DataWithKey Reference.runtime "orders/") Samples.world = (Return rows, w')
        /\ JObj [("key", JStr "orders/9.json"); ("data", Samples.order 9)] ∈ rows).
Proof.
  apply (put_then_scans_find_it Reference.runtime "orders/" "orders/9.json"
           (Samples.order 9) Samples.world (healthy_fault_free _));
    vm_compute; reflexivity.
Defined.

Lemma delete_then_scan_omits_it_witness :
  (delete_ "orders/1.json";;; getS3DataWithKey Reference.runtime "orders/") Samples.world =
    (Return [keyed_row "orders/2.json" (Samples.order 2)],
     snd ((delete_ "orders/1.json";;; getS3DataWithKey Reference.runtime "orders/")
            Samples.world))
  /\ forall d, keyed_row "orders/1.json" d ∉ [keyed_row "orders/2.json" (Samples.order 2)].
Proof.
  assert (Hrun : (delete_ "orders/1.json";;; getS3DataWithKey Reference.runtime "orders/")
                   Samples.world =
                 (Return [keyed_row "orders/2.json" (Samples.order 2)],
                  snd ((delete_ "orders/1.json";;;
                        getS3DataWithKey Reference.runtime "orders/") Samples.world)))
    by (vm_compute; reflexivity).
  split; [exact Hrun|].
  exact (delete_then_scan_omits_it Reference.runtime "orders/" "orders/1.json"
           Samples.world _ _ eq_refl Hrun).
Defined.

Lemma ensureTable_then_scan_returns_the_sentinel_witness :
  exists rows w',
    (ensureTable Reference.runtime "orders";;;
     getS3Data Reference.runtime ("orders" +:+ "/")) Samples.world = (Return rows, w')
    /\ table_sentinel "orders" (now Samples.world) ∈ rows.
Proof.
  apply (ensureTable_then_scan_returns_the_sentinel Reference.runtime "orders" Samples.world
           (healthy_fault_free _) (not_elem_of_empty _));
    vm_compute; reflexivity.
Defined.

(** ** What a scan costs *)

Lemma filter_get_fetches (keys : list string) :
  filter (fun c => is_get c = true) (map GetObjectCommand keys) = map GetObjectCommand keys
  /\ filter (fun c => is_list c = true) (map GetObjectCommand keys) = [].
Proof.
  induction keys as [|k keys [IH1 IH2]]; [done|]. cbn [map].
  rewrite !filter_cons, IH1, IH2. by repeat case_decide.
Qed.

Lemma listings_for_small (n : nat) : n <= 1000 -> listings_for n = 1.
Proof.
  intros Hn. unfold listings_for. f_equal. apply Nat.div_small. lia.
Qed.

Lemma listings_for_more (n : nat) : 1000 < n -> listings_for n = S (listings_for (n - 1000)).
Proof.
  intros Hn. unfold listings_for. f_equal.
  replace (n - 1) with ((n - 1000 - 1) + 1 * 1000) by lia.
  rewrite Nat.div_add by lia. lia.
Qed.

Section Cost.

Variable rt : Runtime.

Lemma pages_requests mk fuel prefix token rows w :
  listing_answered w ->
  length (drop (default 0 token) (list_keys (objects w) prefix)) < fuel ->
  exists cs,
    sent (snd (for_await_pages fuel prefix 1000 token (scan_page rt mk) rows w))
      = (sent w ++ cs)%list
    /\ filter (fun c => is_get c = true) cs
         = map GetObjectCommand (drop (default 0 token) (list_keys (objects w) prefix))
    /\ length (filter (fun c => is_list c = true) cs)
         = listings_for (length (drop (default 0 token) (list_keys (objects w) prefix))).
Proof.
  revert token rows w. induction fuel as [|fuel IH]; intros token rows w Hla Hfuel; [lia|].
  rewrite (page_step rt) by done. cbv zeta.
  set (rest := drop (default 0 token) (list_keys (objects w) prefix)) in *.
  set (w1 := set_sent (sent w ++ [ListObjectsV2Command prefix 1000 token]) w).
  destruct (after_items_sent rt w1 (take 1000 rest)) as [Hs1 _].
  destruct (filter_get_fetches (take 1000 rest)) as [Hg Hl].
  assert (Htake : length (take 1000 rest) + length (drop 1000 rest) = length rest).
  { rewrite <- length_app. by rewrite take_drop. }
  destruct (drop 1000 rest) as [|k more] eqn:Hmore.
  - assert (Hall : take 1000 rest = rest).
    { rewrite <- (take_drop 1000 rest) at 2. by rewrite Hmore, app_nil_r. }
    rewrite Hall in *. simpl snd. rewrite Hs1. simpl sent. rewrite <- app_assoc.
    eexists. split; [reflexivity|]. cbn [app].
    rewrite !filter_cons, Hg, Hl.
    split; [by repeat case_decide|].
    rewrite listings_for_small; [by repeat case_decide|].
    rewrite <- Hall. rewrite length_take. lia.
  - assert (Hskip : drop (default 0 (Some (default 0 token + 1000)))
                       (list_keys (objects w) prefix) = drop 1000 rest).
    { unfold rest. rewrite drop_drop. reflexivity. }
    assert (Hlen : length (drop 1000 rest) = length rest - 1000) by apply length_drop.
    destruct (IH (Some (default 0 token + 1000))
                (rows_after_items rt mk w1 rows (take 1000 rest))
                (after_items rt w1 (take 1000 rest)))
      as (cs & Hs & Hgs & Hls).
    + intros n p m t. rewrite after_items_faults. apply Hla.
    + rewrite after_items_objects. change (objects w1) with (objects w).
      rewrite Hskip. rewrite Hmore in Hlen. rewrite Hmore. simpl in *. lia.
    + revert Hs Hgs Hls. rewrite after_items_objects.
      change (objects w1) with (objects w). rewrite Hskip, Hs1. simpl sent.
      intros Hs Hgs Hls. rewrite Hs, <- !app_assoc.
      eexists. split; [reflexivity|]. cbn [app].
      rewrite !filter_cons, !filter_app, Hg, Hl, Hgs.
      split.
      * case_decide; [done|]. rewrite <- map_app. by rewrite take_drop.
      * case_decide; [|done]. cbn [app length]. rewrite Hls.
        rewrite (listings_for_more (length rest)); [by rewrite Hlen|].
        rewrite Hmore in Hlen. simpl in Hlen. lia.
Qed.

(** X17: what a scan costs: when the listings are answered, getS3Data
    sends one GetObject for each object under the prefix, in the order
    of the listing, and one ListObjectsV2 for each thousand of them
    begun (one when there are none). *)
Theorem getS3Data_sends_one_fetch_per_object (prefix : string) (w : World) :
  listing_answered w ->
  filter (fun c => is_get c = true) (sent_since w (snd (getS3Data rt prefix w)))
    = map GetObjectCommand (list_keys (objects w) prefix)
  /\ length (filter (fun c => is_get c = true) (sent_since w (snd (getS3Data rt prefix w))))
     = count_under prefix (objects w)
  /\ length (filter (fun c => is_list c = true) (sent_since w (snd (getS3Data rt prefix w))))
     = listings_for (count_under prefix (objects w)).
Proof.
  intros Hla. rewrite getS3Data_unfold.
  destruct (pages_requests bare_row (pages_fuel w prefix) prefix None [] w Hla)
    as (cs & Hs & Hg & Hl).
  { unfold pages_fuel. change (default 0 None) with 0. rewrite drop_0. lia. }
  change (default 0 None) with 0 in Hg, Hl. rewrite drop_0 in Hg, Hl.
  rewrite (sent_since_app _ _ _ Hs), Hg, Hl, length_map, length_list_keys. done.
Qed.

End Cost.

Lemma getS3Data_sends_one_fetch_per_object_witness :
  listing_answered Samples.world
  /\ sent_since Samples.world (snd (getS3Data Reference.runtime "orders/" Samples.world))
     = ListObjectsV2Command "orders/" 1000 None
         :: map GetObjectCommand (list_keys (objects Samples.world) "orders/")
  /\ filter (fun c => is_get c = true)
       (sent_since Samples.world (snd (getS3Data Reference.runtime "orders/" Samples.world)))
     = map GetObjectCommand (list_keys (objects Samples.world) "orders/")
  /\ length (filter (fun c => is_get c = true)
               (sent_since Samples.world
                  (snd (getS3Data Reference.runtime "orders/" Samples.world))))
     = count_under "orders/" (objects Samples.world)
  /\ length (filter (fun c => is_list c = true)
               (sent_since Samples.world
                  (snd (getS3Data Reference.runtime "orders/" Samples.world))))
     = listings_for (count_under "orders/" (objects Samples.world)).
Proof.
  assert (Hla : listing_answered Samples.world) by (intros n p m t; reflexivity).
  split; [exact Hla|].
  split; [vm_compute; reflexivity|].
  exact (getS3Data_sends_one_fetch_per_object Reference.runtime "orders/" Samples.world Hla).
Defined.

(** ** Pool credentials and get read the same record *)

Section Agreement.

Variable rt : Runtime.

Lemma getPoolCredentials_pool_outcome (profileId : option string) (w : World) :
  names_pool profileId ->
  fst (getPoolCredentials rt profileId w) =
    Return (match fetch w (pool_key profileId) with
            | inl _ => JNull
            | inr body =>
                match JSON_parse rt body with
                | None => JNull
                | Some poolData =>
                    match complete_record poolData with
                    | Some (b, a, s) => credentials_object b a s
                    | None => JNull
                    end
                end
            end).
Proof.
  intros Hpool. unfold getPoolCredentials.
  rewrite (names_pool_branch _ Hpool).
  unfold try_catch, bind, console_log. rewrite send_GetObject_fetch.
  change (fetch (set_console _ w) (pool_key profileId)) with (fetch w (pool_key profileId)).
  destruct (fetch w (pool_key profileId)) as [e|body].
  { by destruct (String.eqb (name e) "NoSuchKey"). }
  unfold streamToString, parse, ret. simpl.
  destruct (JSON_parse rt body) as [poolData|]; simpl; [|done].
  unfold complete_record, truthy_field, or_else, missing, bind, eval, ret.
  destruct poolData as [|[]|n|s|items|props]; simpl; try done.
  - by destruct (n =? 0)%Z.
  - by destruct (String.eqb s "").
  - destruct (lookup_prop "bucketName" props) as [b|]; simpl; [|done].
    destruct (truthy b) eqn:Hb; simpl; [|done].
    destruct (lookup_prop "accessKey" props) as [a|]; simpl; [|done].
    destruct (truthy a) eqn:Ha; simpl; [|done].
    destruct (lookup_prop "secretKey" props) as [s|]; simpl; [|done].
    destruct (truthy s) eqn:Hs; simpl; done.
Qed.

(** X18: getPoolCredentials reads what get reads: when it returns a
    record for a profile that names a pool, get on `pools/<profileId>.json`
    in the same world returns a document whose bucketName, accessKey and
    secretKey are the three values of that record. *)
Theorem getPoolCredentials_agrees_with_get
    (profileId : option string) (w : World) (b a s : json) :
  names_pool profileId ->
  fst (getPoolCredentials rt profileId w) = Return (credentials_object b a s) ->
  exists poolData,
    fst (get rt (pool_key profileId) w) = Return poolData
    /\ truthy_field poolData "bucketName" = Some b
    /\ truthy_field poolData "accessKey" = Some a
    /\ truthy_field poolData "secretKey" = Some s.
Proof.
  intros Hpool. rewrite getPoolCredentials_pool_outcome by done. rewrite get_outcome.
  destruct (fetch w (pool_key profileId)) as [e|body]; [done|].
  destruct (JSON_parse rt body) as [poolData|]; [|done]. simpl.
  unfold complete_record.
  destruct (truthy_field poolData "bucketName") as [b'|] eqn:Hb; [|done].
  destruct (truthy_field poolData "accessKey") as [a'|] eqn:Ha; [|done].
  destruct (truthy_field poolData "secretKey") as [s'|] eqn:Hs; [|done].
  intros [= <- <- <-]. by exists poolData.
Qed.

End Agreement.

Lemma getPoolCredentials_agrees_with_get_witness :
  fst (getPoolCredentials Reference.runtime (Some "acme") Samples.world)
    = Return (credentials_object (JStr "acme-media") (JStr "AKIAACME") (JStr "s3cr3t"))
  /\ exists poolData,
       fst (get Reference.runtime (pool_key (Some "acme")) Samples.world) = Return poolData
       /\ truthy_field poolData "bucketName" = Some (JStr "acme-media")
       /\ truthy_field poolData "accessKey" = Some (JStr "AKIAACME")
       /\ truthy_field poolData "secretKey" = Some (JStr "s3cr3t").
Proof.
  assert (H : fst (getPoolCredentials Reference.runtime (Some "acme") Samples.world)
              = Return (credentials_object (JStr "acme-media") (JStr "AKIAACME")
                          (JStr "s3cr3t"))) by (vm_compute; reflexivity).
  split; [exact H|].
  exact (getPoolCredentials_agrees_with_get Reference.runtime (Some "acme") Samples.world
           _ _ _ (names_pool_sample "acme" eq_refl eq_refl) H).
Defined.

(** ** The order of the rows *)

Section Order.

Variable rt : Runtime.

Lemma rows_after_items_picked w rows keys :
  exists picked,
    rows_after_items rt keyed_row w rows keys = (rows ++ entries_of picked)%list
    /\ picked.*1 `sublist_of` keys.
Proof.
  revert w rows. induction keys as [|k keys IH]; intros w rows.
  - exists []. simpl. by rewrite app_nil_r.
  - cbn [rows_after_items]. unfold rows_after_item at 1.
    destruct (IH (after_item rt w k)
                (match item_outcome rt w k with
                 | inr d => (rows ++ [keyed_row k d])%list
                 | inl _ => rows
                 end)) as (picked & -> & Hsub).
    destruct (item_outcome rt w k) as [e|d].
    + exists picked. split; [done|]. by apply sublist_cons.
    + exists ((k, d) :: picked). rewrite <- app_assoc. split; [done|].
      simpl. by apply sublist_skip.
Qed.

Lemma page_keys objs prefix skip :
  match Contents (list_page objs prefix 1000 skip) with
  | Some c => map Key c
  | None => []
  end = take 1000 (drop skip (list_keys objs prefix)).
Proof.
  unfold list_page. cbn [Contents].
  destruct (take 1000 (drop skip (list_keys objs prefix))) as [|k ks]; [done|].
  apply map_Key_mkObject.
Qed.

Lemma pages_picked fuel prefix token rows w rows' w' :
  for_await_pages fuel prefix 1000 token (scan_page rt keyed_row) rows w = (Return rows', w') ->
  exists picked,
    rows' = (rows ++ entries_of picked)%list
    /\ picked.*1 `sublist_of` drop (default 0 token) (list_keys (objects w) prefix).
Proof.
  revert token rows w. induction fuel as [|fuel IH]; intros token rows w; [done|].
  rewrite (page_turn rt). cbv zeta.
  destruct (faults w (length (sent w)) (ListObjectsV2Command prefix 1000 token)); [done|].
  rewrite page_keys.
  set (rest := drop (default 0 token) (list_keys (objects w) prefix)).
  set (w1 := set_sent (sent w ++ [ListObjectsV2Command prefix 1000 token]) w).
  destruct (rows_after_items_picked w1 rows (take 1000 rest)) as (picked1 & -> & Hsub1).
  unfold list_page. cbn [NextContinuationToken]. fold rest.
  destruct (drop 1000 rest) as [|k more] eqn:Hmore.
  - intros [= <- <-]. exists picked1. split; [done|].
    rewrite <- (take_drop 1000 rest). by apply sublist_inserts_r.
  - intros Hrun. apply IH in Hrun as (picked2 & -> & Hsub2).
    exists (picked1 ++ picked2)%list. unfold entries_of. rewrite map_app, <- app_assoc.
    split; [done|].
    rewrite fmap_app, <- (take_drop 1000 rest). apply sublist_app; [done|].
    revert Hsub2. rewrite after_items_objects. change (objects w1) with (objects w).
    replace (drop (default 0 (Some (default 0 token + 1000))) (list_keys (objects w) prefix))
      with (drop 1000 rest) by (unfold rest; rewrite drop_drop; reflexivity).
    done.
Qed.

Lemma NoDup_list_keys objs prefix : NoDup (list_keys objs prefix).
Proof. unfold list_keys. apply NoDup_filter, NoDup_fst_map_to_list. Qed.

(** X19: the rows keep the order of the listing: whatever the backend
    does to the single fetches, the keys of the entries getS3DataWithKey
    returns, read in order, are a sublist of the keys the backend lists
    under the prefix; no sort is applied and no object is returned
    twice. *)
Theorem getS3DataWithKey_keeps_the_listing_order
    (prefix : string) (w : World) (rows : list json) (w' : World) :
  getS3DataWithKey rt prefix w = (Return rows, w') ->
  exists picked,
    rows = entries_of picked
    /\ picked.*1 `sublist_of` list_keys (objects w) prefix
    /\ NoDup picked.*1.
Proof.
  rewrite getS3DataWithKey_unfold. intros Hrun.
  apply pages_picked in Hrun as (picked & -> & Hsub).
  change (default 0 None) with 0 in Hsub. rewrite drop_0 in Hsub.
  exists picked. split; [done|]. split; [done|].
  eapply sublist_NoDup; [apply NoDup_list_keys|done].
Qed.

End Order.

Lemma getS3DataWithKey_keeps_the_listing_order_witness :
  list_keys (objects Samples.world) "orders/"
    = ["orders/3.json"; "orders/1.json"; "orders/2.json"]
  /\ getS3DataWithKey Reference.runtime "orders/" Samples.world =
       (Return Samples.keyed_orders,
        snd (getS3DataWithKey Reference.runtime "orders/" Samples.world))
  /\ exists picked,
       Samples.keyed_orders = entries_of picked
       /\ picked.*1 `sublist_of` list_keys (objects Samples.world) "orders/"
       /\ NoDup picked.*1.
Proof.
  assert (Hrun : getS3DataWithKey Reference.runtime "orders/" Samples.world =
                   (Return Samples.keyed_orders,
                    snd (getS3DataWithKey Reference.runtime "orders/" Samples.world)))
    by (vm_compute; reflexivity).
  split; [vm_compute; reflexivity|]. split; [exact Hrun|].
  exact (getS3DataWithKey_keeps_the_listing_order Reference.runtime "orders/" Samples.world
           _ _ Hrun).
Defined.

(** ** A new instance *)

Section NewInstance.

Variable rt : Runtime.

(** X20: a new instance knows no table: whatever the arguments of the
    constructor and whatever client it makes, the first ensureTable on
    the instance, for any table name, does not answer from the cache:
    it starts by asking the backend for the table's sentinel. *)
Theorem new_instance_asks_the_backend
    (expose : S3ClientConfig -> jsval)
    (endpoint' bucket' region' accessKey secretKey : option string)
    (tableName : string) (w : World) :
  this w = new_S3Database rt expose endpoint' bucket' region' accessKey secretKey ->
  exists cs,
    sent_since w (snd (ensureTable rt tableName w))
      = GetObjectCommand (metadata_key tableName) :: cs.
Proof.
  intros Hthis.
  assert (Hnot : tableName ∉ tables (this w)) by (rewrite Hthis; apply not_elem_of_empty).
  rewrite ensureTable_unknown_run by done. cbv zeta.
  destruct (fetch w (metadata_key tableName)) as [e|body];
    [destruct (faults w (S (length (sent w))) _)|];
    simpl; eexists; apply sent_since_app; simpl; rewrite <- ?app_assoc; reflexivity.
Qed.

End NewInstance.

Lemma new_instance_asks_the_backend_witness :
  sent_since Samples.world (snd (ensureTable Reference.runtime "invoices" Samples.world))
    = [GetObjectCommand "invoices/_metadata.json"]
  /\ exists cs,
       sent_since Samples.world (snd (ensureTable Reference.runtime "invoices" Samples.world))
         = GetObjectCommand (metadata_key "invoices") :: cs.
Proof.
  split; [vm_compute; reflexivity|].
  exact (new_instance_asks_the_backend Reference.runtime Samples.provider
           None None None None None "invoices" Samples.world eq_refl).
Defined.
